(** * Hexagonal grid illumination: the perimeter tracer of [hex-grid.js]

    A shallow embedding of the [HexGrid] class of [src/hex-grid.js]: the
    occupancy grid with its one-cell border ring, the row-parity neighbour
    tables, the depth-first flood fill of [computePerimeter], and the three
    operations that replace or mutate the grid ([initEmptyGrid],
    [loadFromInput], [handleClick]).  Canvas drawing is left out; the call
    chain [resizeCanvas -> draw -> computePerimeter] is kept, because it
    rewrites [isVisited] and [perimeterEdges] and can throw, and so are the
    reads of the grid in the hexagon loop of [draw].  Numbers are integers;
    where the source's double arithmetic can round, in the toggle of a
    click, the rounding is written out ([to_double]). *)

From stdpp Require Import base numbers list.

Local Open Scope Z_scope.

(** ** Outcomes of a method call *)

Inductive js_error := TypeError | RangeError.

(** [Ret] is normal completion and [Raise] an uncaught exception.  [Beyond]
    marks what the integer model does not represent: a [NaN] or a hole in an
    array, or recursion deeper than the fuel given to [dfs]. *)
Inductive outcome (A : Type) : Type :=
| Ret (a : A)
| Raise (e : js_error)
| Beyond.

Arguments Ret {A} a.
Arguments Raise {A} e.
Arguments Beyond {A}.

#[export] Instance js_error_eq_dec : EqDecision js_error.
Proof. solve_decision. Defined.

#[export] Instance outcome_eq_dec {A : Type} `{EqDecision A} : EqDecision (outcome A).
Proof. solve_decision. Defined.

#[export] Instance outcome_ret : MRet outcome := fun A a => Ret a.

#[export] Instance outcome_bind : MBind outcome := fun A B k c =>
  match c with
  | Ret a => k a
  | Raise e => Raise e
  | Beyond => Beyond
  end.

(** [for (const v of vs) s = body(v, s)], stopping at the first exception. *)
Fixpoint for_each {A S : Type} (body : A -> S -> outcome S) (vs : list A) (s : S)
  : outcome S :=
  match vs with
  | [] => Ret s
  | v :: vs' => s' ← body v s; for_each body vs' s'
  end.

(** ** JavaScript arrays indexed by integers *)

(** [a[i]]: [None] stands for [undefined]. *)
Definition js_get {A : Type} (a : list A) (i : Z) : option A :=
  if decide (0 <= i) then a !! Z.to_nat i else None.

(** [a[i] = v].  Inside the array it overwrites, at [i = a.length] it
    appends; a write that would leave holes, or one at a negative index, is
    not represented ([None]). *)
Definition js_set {A : Type} (a : list A) (i : Z) (v : A) : option (list A) :=
  if decide (0 <= i < Z.of_nat (length a)) then Some (<[Z.to_nat i := v]> a)
  else if decide (i = Z.of_nat (length a)) then Some (a ++ [v])
  else None.

(** [m[y][x]]: reading a property of [undefined] throws a [TypeError]; a
    missing element of an existing row is [undefined]. *)
Definition at2 {A : Type} (m : list (list A)) (y x : Z) : outcome (option A) :=
  match js_get m y with
  | None => Raise TypeError
  | Some r => Ret (js_get r x)
  end.

(** [m[y][x] = v]. *)
Definition store2 {A : Type} (m : list (list A)) (y x : Z) (v : A)
  : outcome (list (list A)) :=
  match js_get m y with
  | None => Raise TypeError
  | Some r =>
      match js_set r x v with
      | None => Beyond
      | Some r' =>
          match js_set m y r' with
          | None => Beyond
          | Some m' => Ret m'
          end
      end
  end.

(** [Array.from({ length: rows }, () => Array(cols).fill(v))].  A negative
    [length] counts as zero, and then the callback never runs;
    [Array(cols)] with negative [cols] throws a [RangeError]. *)
Definition alloc2 {A : Type} (rows cols : Z) (v : A) : outcome (list (list A)) :=
  if decide (rows <= 0) then Ret []
  else if decide (cols < 0) then Raise RangeError
  else Ret (replicate (Z.to_nat rows) (replicate (Z.to_nat cols) v)).

(** ** The state of a [HexGrid] *)

(** An entry of [perimeterEdges], [{ x, y, dir }]. *)
Record PerimeterEdge : Type := mkEdge { edge_x : Z; edge_y : Z; edge_dir : Z }.

#[export] Instance PerimeterEdge_eq_dec : EqDecision PerimeterEdge.
Proof. solve_decision. Defined.

Record HexGrid : Type := mkHexGrid {
  W : Z;                                  (* width (cols) *)
  H : Z;                                  (* height (rows) *)
  grid : list (list Z);                   (* 1 for building, 0 for empty *)
  isVisited : list (list bool);
  perimeterEdges : list PerimeterEdge
}.

Definition set_grid (st : HexGrid) (Wn Hn : Z) (g : list (list Z)) : HexGrid :=
  mkHexGrid Wn Hn g (isVisited st) (perimeterEdges st).

Definition set_isVisited (st : HexGrid) (v : list (list bool)) : HexGrid :=
  mkHexGrid (W st) (H st) (grid st) v (perimeterEdges st).

Definition set_perimeterEdges (st : HexGrid) (es : list PerimeterEdge) : HexGrid :=
  mkHexGrid (W st) (H st) (grid st) (isVisited st) es.

(** ** Direction tables *)

(** Direction order: 0 Right, 1 Bottom-Right, 2 Bottom-Left, 3 Left,
    4 Top-Left, 5 Top-Right. *)
Definition dx : list (list Z) :=
  [ [1; 0; -1; -1; -1; 0];   (* y % 2 == 0 *)
    [1; 1; 0; -1; 0; 1] ].   (* y % 2 == 1 *)

Definition dy : list (list Z) :=
  [ [0; 1; 1; 0; -1; -1];
    [0; 1; 1; 0; -1; -1] ].

(** [tbl[y % 2][d]] as a number: [%] is the truncating remainder; a missing
    row throws, a missing entry would make the sum [NaN]. *)
Definition offset (tbl : list (list Z)) (y d : Z) : outcome Z :=
  o ← at2 tbl (Z.rem y 2) d;
  match o with
  | Some v => Ret v
  | None => Beyond
  end.

(** [ny < 0 || nx < 0 || ny > this.H + 1 || nx > this.W + 1] *)
Definition out_of_bounds (st : HexGrid) (ny nx : Z) : bool :=
  (ny <? 0) || (nx <? 0) || (ny >? H st + 1) || (nx >? W st + 1).

(** [v === 1] for a cell read with [at2]. *)
Definition is_one (o : option Z) : bool :=
  match o with
  | Some v => bool_decide (v = 1)
  | None => false
  end.

(** Truthiness of an [isVisited] entry. *)
Definition truthy (o : option bool) : bool :=
  match o with
  | Some b => b
  | None => false
  end.

(** ** computePerimeter *)

(** The body of the [for (let d = 0; d < 6; d++)] loop of [dfs] at cell
    [(y, x)]; [call] is the recursive [dfs].  The pair threaded through is
    the object state and the local [totalCount]. *)
Definition probe (call : Z -> Z -> HexGrid * Z -> outcome (HexGrid * Z))
    (y x d : Z) (s : HexGrid * Z) : outcome (HexGrid * Z) :=
  oy ← offset dy y d;
  ox ← offset dx y d;
  let ny := y + oy in
  let nx := x + ox in
  if out_of_bounds (s.1) ny nx then Ret s
  else
    c ← at2 (grid s.1) ny nx;
    if is_one c then
      let backDir := Z.rem (d + 3) 6 in
      Ret (set_perimeterEdges s.1 (perimeterEdges s.1 ++ [mkEdge nx ny backDir]),
           s.2 + 1)
    else call ny nx s.

Fixpoint dfs (fuel : nat) (y x : Z) (s : HexGrid * Z) : outcome (HexGrid * Z) :=
  match fuel with
  | O => Beyond
  | S fuel' =>
      c ← at2 (grid s.1) y x;
      if is_one c then Ret s
      else
        v ← at2 (isVisited s.1) y x;
        if truthy v then Ret s
        else
          vis ← store2 (isVisited s.1) y x true;
          for_each (probe (dfs fuel') y x) (seqZ 0 6) (set_isVisited s.1 vis, s.2)
  end.

(** Recursion depth never exceeds the number of cells of the visited matrix. *)
Definition dfs_fuel (st : HexGrid) : nat :=
  S (Z.to_nat ((H st + 2) * (W st + 2))).

Definition computePerimeter (st : HexGrid) : outcome (HexGrid * Z) :=
  vis ← alloc2 (H st + 2) (W st + 2) false;
  let st1 := set_perimeterEdges (set_isVisited st vis) [] in
  dfs (dfs_fuel st) 0 0 (st1, 0).

(** ** Operations that replace or mutate the grid *)

(** The hexagon loop of [draw]: it reads [this.grid[y][x]] for every
    content cell, which throws where the row is missing; what it paints
    leaves no trace in the state. *)
Definition draw_hexagons (st : HexGrid) : outcome unit :=
  for_each
    (fun y u =>
       for_each (fun x u => c ← at2 (grid st) y x; Ret u) (seqZ 1 (W st)) u)
    (seqZ 1 (H st)) tt.

(** [draw] retraces the perimeter, hands the count to the page, paints the
    hexagons and then the edges; only the retrace touches the state.
    [drawPerimeter] indexes the six vertices with [dir] and
    [(dir + 1) % 6], [dir] being a [backDir], and cannot throw. *)
Definition draw (st : HexGrid) : outcome HexGrid :=
  r ← computePerimeter st; _ ← draw_hexagons r.1; Ret r.1.

(** [resizeCanvas] sets the canvas size and redraws. *)
Definition resizeCanvas (st : HexGrid) : outcome HexGrid := draw st.

Definition initEmptyGrid (Wn Hn : Z) (st : HexGrid) : outcome HexGrid :=
  g ← alloc2 (Hn + 2) (Wn + 2) 0;
  resizeCanvas (set_grid st Wn Hn g).

(** The object as the constructor leaves it: empty fields, then
    [initEmptyGrid(8, 4)]. *)
Definition blank : HexGrid := mkHexGrid 0 0 [] [] [].

Definition new_HexGrid : outcome HexGrid := initEmptyGrid 8 4 blank.

(** [rowData[j - 1] || 0] *)
Definition or_zero (o : option Z) : Z := default 0 o.

(** [loadFromInput], from the point where the text has been cut into its
    non-empty trimmed lines and every line into its tokens read as
    integers: [lines] is that list.  An empty text gives no line, so both
    early returns are the test on the number of lines.  A first line with
    fewer than two tokens leaves [W] or [H] undefined, which is not
    represented. *)
Definition loadFromInput (lines : list (list Z)) (st : HexGrid) : outcome HexGrid :=
  if decide (length lines < 2)%nat then Ret st
  else
    match lines with
    | (Wn :: Hn :: _) :: _ =>
        g0 ← alloc2 (Hn + 2) (Wn + 2) 0;
        g ← for_each
              (fun i g =>
                 match js_get lines i with
                 | None => Raise TypeError
                 | Some rowData =>
                     for_each
                       (fun j g => store2 g i j (or_zero (js_get rowData (j - 1))))
                       (seqZ 1 Wn) g
                 end)
              (seqZ 1 Hn) g0;
        resizeCanvas (set_grid st Wn Hn g)
    | _ => Beyond
    end.

(** The source's numbers are IEEE doubles.  [to_double z] is the double
    nearest to the integer [z], ties going to the even significand: an
    integer below 2^53 in magnitude is a double; a larger one keeps its 53
    leading bits [q], rounded by the remainder [r] against half a unit.
    The exponent is not bounded here: [1 - v] never leaves the range of
    the doubles when [v] is one. *)
Definition to_double (z : Z) : Z :=
  let a := Z.abs z in
  if a <? 2 ^ 53 then z
  else
    let e := Z.log2 a - 52 in
    let q := a / 2 ^ e in
    let r := a mod 2 ^ e in
    let half := 2 ^ (e - 1) in
    let q' := if (r <? half) || ((r =? half) && Z.even q) then q else q + 1 in
    Z.sgn z * (q' * 2 ^ e).

(** The integers that are doubles with all their neighbours: the safe
    integers of the source language. *)
Definition safe_integer (z : Z) : Prop := - 2 ^ 53 < z < 2 ^ 53.

Section Click.
(** The mouse event enters [handleClick] only through the distance from
    the pointer to the centre of each content cell.  Distances are
    floating-point numbers in the source; here they are values of any type
    [D] with the comparison [ltD], a bound [hexSize] and a greatest value
    [infinity]. *)
Context {D : Type} (ltD : D -> D -> bool) (hexSize infinity : D).
Variable dist : Z -> Z -> D.

(** The two nested loops that choose [bestPos]; the accumulator is
    [(bestDist, bestPos)], and a position is [(x, y)]. *)
Definition pick (st : HexGrid) : D * option (Z * Z) :=
  foldl
    (fun acc y =>
       foldl
         (fun acc x =>
            if ltD (dist x y) hexSize && ltD (dist x y) acc.1
            then (dist x y, Some (x, y))
            else acc)
         acc (seqZ 1 (W st)))
    (infinity, None) (seqZ 1 (H st)).

(** [1 - this.grid[y][x]] is a subtraction of doubles; [1 - undefined] is
    [NaN], which is not represented. *)
Definition handleClick (st : HexGrid) : outcome HexGrid :=
  match (pick st).2 with
  | None => Ret st
  | Some (x, y) =>
      c ← at2 (grid st) y x;
      match c with
      | None => Beyond
      | Some v =>
          g ← store2 (grid st) y x (to_double (1 - v));
          draw (set_grid st (W st) (H st) g)
      end
  end.
End Click.

(** ** Vocabulary of the specification *)

(** A cell is [(row, col)]. *)
Definition cell : Type := Z * Z.

(** The cell reached from [(y, x)] in direction [d], as [dfs] computes it. *)
Definition neighbour (c : cell) (d : Z) : outcome cell :=
  oy ← offset dy c.1 d;
  ox ← offset dx c.1 d;
  Ret (c.1 + oy, c.2 + ox).

(** The offsets [(Δcol, Δrow)] of directions 0..5 as the specification
    lists them, for an even and for an odd row. *)
Definition spec_even : list (Z * Z) :=
  [(1, 0); (0, 1); (-1, 1); (-1, 0); (-1, -1); (0, -1)].

Definition spec_odd : list (Z * Z) :=
  [(1, 0); (1, 1); (0, 1); (-1, 0); (0, -1); (1, -1)].

Definition spec_offsets (row : Z) : list (Z * Z) :=
  if Z.even row then spec_even else spec_odd.

Definition in_grid (st : HexGrid) (c : cell) : Prop :=
  0 <= c.1 <= H st + 1 /\ 0 <= c.2 <= W st + 1.

(** A cell is filled when it reads [=== 1]; every other cell is empty. *)
Definition filled (st : HexGrid) (c : cell) : Prop :=
  at2 (grid st) c.1 c.2 = Ret (Some 1).

#[export] Instance filled_dec (st : HexGrid) (c : cell) : Decision (filled st c).
Proof. unfold filled. apply _. Defined.

Definition on_border (st : HexGrid) (c : cell) : Prop :=
  c.1 = 0 \/ c.1 = H st + 1 \/ c.2 = 0 \/ c.2 = W st + 1.

Definition border_empty (st : HexGrid) : Prop :=
  forall c, in_grid st c -> on_border st c -> ~ filled st c.

(** A matrix of [rows] rows of [cols] entries. *)
Definition shape {A : Type} (m : list (list A)) (rows cols : Z) : Prop :=
  Z.of_nat (length m) = rows /\ Forall (fun r => Z.of_nat (length r) = cols) m.

(** The grid is the [(H+2) x (W+2)] matrix, and holds at least cell (0,0). *)
Definition grid_ok (st : HexGrid) : Prop :=
  -1 <= H st /\ -1 <= W st /\ shape (grid st) (H st + 2) (W st + 2).

(** [n] is the neighbour of [e] in direction [d], inside the grid. *)
Definition adj (st : HexGrid) (e : cell) (d : Z) (n : cell) : Prop :=
  0 <= d < 6 /\ neighbour e d = Ret n /\ in_grid st n.

(** Empty cells reachable from the seed (0,0) through empty cells. *)
Inductive reach (st : HexGrid) : cell -> Prop :=
| reach_seed : in_grid st (0, 0) -> ~ filled st (0, 0) -> reach st (0, 0)
| reach_step e d n :
    reach st e -> adj st e d n -> ~ filled st n -> reach st n.

(** Direction [d] out of the empty cell [e] meets a filled cell. *)
Definition hit (st : HexGrid) (p : cell * Z) : Prop :=
  exists n, adj st p.1 p.2 n /\ filled st n.

(** The entry [dfs] pushes for the pair [(e, d)]: the filled neighbour and
    the side of it that faces [e]. *)
Definition edge_of (p : cell * Z) : PerimeterEdge :=
  match neighbour p.1 p.2 with
  | Ret n => mkEdge n.2 n.1 (Z.rem (p.2 + 3) 6)
  | _ => mkEdge 0 0 0
  end.

(** The outside-reachable empty-to-filled adjacencies. *)
Definition exposed (st : HexGrid) (p : cell * Z) : Prop :=
  reach st p.1 /\ hit st p.

(** Read of [isVisited[y][x]] as a truth value. *)
Definition seen (vis : list (list bool)) (c : cell) : bool :=
  match at2 vis c.1 c.2 with
  | Ret o => truthy o
  | _ => false
  end.

(** Number of entries of the visited matrix still [false]. *)
Definition unseen (vis : list (list bool)) : nat :=
  sum_list_with (fun r => length (filter (fun b => b = false) r)) vis.

(** ** Invariants of the flood fill *)

(** While [computePerimeter st0] runs, [dfs] leaves the grid and its
    dimensions alone and keeps the visited matrix in shape. *)
Definition tracing (st0 : HexGrid) (s : HexGrid * Z) : Prop :=
  W s.1 = W st0 /\ H s.1 = H st0 /\ grid s.1 = grid st0 /\
  shape (isVisited s.1) (H st0 + 2) (W st0 + 2).

(** Cells visited between the states [s] and [s']. *)
Definition fresh (s s' : HexGrid * Z) (e : cell) : Prop :=
  seen (isVisited s.1) e = false /\ seen (isVisited s'.1) e = true.

(** Every empty neighbour of [e] has been visited. *)
Definition closed_at (st0 : HexGrid) (s' : HexGrid * Z) (e : cell) : Prop :=
  forall d n, adj st0 e d n -> ~ filled st0 n -> seen (isVisited s'.1) n = true.

(** What a stretch of the fill from [s] to [s'] has done, when it ran the
    directions [ds] of the loop at cell [c] (none for a whole call):
    visited cells stay visited; the cells it visited are reachable and
    finished; and the edges it pushed are those of the pairs [ps], one per
    pair, the pairs being the hits of the cells it visited and of [c] in
    the directions [ds]. *)
Definition traced (st0 : HexGrid) (c : cell) (ds : list Z)
    (s s' : HexGrid * Z) : Prop :=
  tracing st0 s' /\
  (forall e, seen (isVisited s.1) e = true -> seen (isVisited s'.1) e = true) /\
  (unseen (isVisited s'.1) <= unseen (isVisited s.1))%nat /\
  (forall e, fresh s s' e -> reach st0 e /\ closed_at st0 s' e) /\
  exists ps : list (cell * Z),
    perimeterEdges s'.1 = perimeterEdges s.1 ++ (edge_of <$> ps) /\
    s'.2 = s.2 + Z.of_nat (length ps) /\
    NoDup ps /\
    forall p, p ∈ ps <->
      (fresh s s' p.1 /\ hit st0 p) \/ (p.1 = c /\ p.2 ∈ ds /\ hit st0 p).

(** The induction hypothesis on [dfs] at a given fuel. *)
Definition dfs_sound (st0 : HexGrid) (fuel : nat) : Prop :=
  forall (c : cell) (s : HexGrid * Z),
    tracing st0 s -> in_grid st0 c -> (~ filled st0 c -> reach st0 c) ->
    (unseen (isVisited s.1) < fuel)%nat ->
    exists s', dfs fuel c.1 c.2 s = Ret s' /\ traced st0 c [] s s' /\
               (~ filled st0 c -> seen (isVisited s'.1) c = true).

(** [st'] has the dimensions and the grid of [st]. *)
Definition same_grid (st st' : HexGrid) : Prop :=
  W st' = W st /\ H st' = H st /\ grid st' = grid st.

(** Side [dir] of the filled cell [(y, x)] faces an empty cell that the
    fill reaches from the outside. *)
Definition lit (st : HexGrid) (ed : PerimeterEdge) : Prop :=
  0 <= edge_dir ed < 6 /\
  in_grid st (edge_y ed, edge_x ed) /\
  filled st (edge_y ed, edge_x ed) /\
  exists e, neighbour (edge_y ed, edge_x ed) (edge_dir ed) = Ret e /\ reach st e.

(** ** Sample grids *)

(** A 3 x 3 content area with the single building (2,2). *)
Definition lone_cell : HexGrid :=
  mkHexGrid 3 3
    [ [0; 0; 0; 0; 0];
      [0; 0; 0; 0; 0];
      [0; 0; 1; 0; 0];
      [0; 0; 0; 0; 0];
      [0; 0; 0; 0; 0] ] [] [].

(** A 2 x 2 content area with the adjacent buildings (1,1) and (1,2). *)
Definition two_cells : HexGrid :=
  mkHexGrid 2 2
    [ [0; 0; 0; 0];
      [0; 1; 1; 0];
      [0; 0; 0; 0];
      [0; 0; 0; 0] ] [] [].

(** The building (2,2) with its six neighbours built as well. *)
Definition flower : HexGrid :=
  mkHexGrid 3 3
    [ [0; 0; 0; 0; 0];
      [0; 1; 1; 0; 0];
      [0; 1; 1; 1; 0];
      [0; 1; 1; 0; 0];
      [0; 0; 0; 0; 0] ] [] [].

(** A grid whose seed cell (0,0) is a building. *)
Definition blocked_seed : HexGrid :=
  mkHexGrid 1 1
    [ [1; 0; 0];
      [0; 1; 0];
      [0; 0; 0] ] [] [].

(** The six sides of the cell [(row, col)], and its sides other than [d]. *)
Definition sides (row col : Z) : list PerimeterEdge :=
  (fun s => mkEdge col row s) <$> seqZ 0 6.

Definition sides_but (row col d : Z) : list PerimeterEdge :=
  (fun s => mkEdge col row s) <$> filter (fun s => s <> d) (seqZ 0 6).

(** A call is rejected when it ends in an exception. *)
Definition rejected {A : Type} (r : outcome A) : Prop := exists e, r = Raise e.

(** ** Vocabulary of the further properties *)

(** The cells of the grid, row by row, and the buildings among them. *)
Definition cells (st : HexGrid) : list cell :=
  y ← seqZ 0 (H st + 2); x ← seqZ 0 (W st + 2); [(y, x)].

Definition buildings (st : HexGrid) : list cell :=
  filter (filled st) (cells st).

(** A content cell: not on the border ring. *)
Definition content (st : HexGrid) (c : cell) : Prop :=
  1 <= c.1 <= H st /\ 1 <= c.2 <= W st.

(** The stored visited matrix and edge list are those of a trace of the
    current grid. *)
Definition synced (st : HexGrid) : Prop :=
  exists n, computePerimeter st = Ret (st, n).

(** [drawPerimeter]: the indices [sideIdx] and [(sideIdx + 1) % 6] of the
    two vertices between which the segment of an edge is drawn. *)
Definition segment_ends (ed : PerimeterEdge) : Z * Z :=
  (edge_dir ed, Z.rem (edge_dir ed + 1) 6).

(** What [loadFromInput] stores in the content cell [c]:
    [lines[i].split(/\s+/).map(Number)[j - 1] || 0]. *)
Definition loaded (lines : list (list Z)) (c : cell) : Z :=
  match js_get lines c.1 with
  | Some rowData => or_zero (js_get rowData (c.2 - 1))
  | None => 0
  end.

(** The loop body of [loadFromInput] for row [i]. *)
Definition load_row (lines : list (list Z)) (Wn : Z) (i : Z) (g : list (list Z))
  : outcome (list (list Z)) :=
  match js_get lines i with
  | None => Raise TypeError
  | Some rowData =>
      for_each (fun j g => store2 g i j (or_zero (js_get rowData (j - 1))))
        (seqZ 1 Wn) g
  end.

(** A ring of six buildings around the empty cell (2,2). *)
Definition courtyard : HexGrid :=
  mkHexGrid 3 3
    [ [0; 0; 0; 0; 0];
      [0; 1; 1; 0; 0];
      [0; 1; 0; 1; 0];
      [0; 1; 1; 0; 0];
      [0; 0; 0; 0; 0] ] [] [].

(** A click whose pointer is at distance [|x - 2| + |y - 2|] of the centre
    of cell [(x, y)], on a canvas where a cell is hit below distance 1. *)
Definition click_22 (x y : Z) : Z := Z.abs (x - 2) + Z.abs (y - 2).

(** One building on the only content cell of a 1 x 1 content area. *)
Definition corner_cell : HexGrid :=
  mkHexGrid 1 1
    [ [0; 0; 0];
      [0; 1; 0];
      [0; 0; 0] ] [] [].

(** What the accumulator [(bestDist, bestPos)] of [pick] holds once the
    positions [visited] have been tried: nothing if none of them is within
    [hexSize], else one of them within [hexSize] such that none of them
    within [hexSize] is strictly nearer. *)
Definition best_among {D : Type} (ltD : D -> D -> bool) (hexSize infinity : D)
    (dist : Z -> Z -> D) (visited : list (Z * Z)) (acc : D * option (Z * Z))
  : Prop :=
  match acc.2 with
  | None =>
      acc.1 = infinity /\
      forall p, p ∈ visited -> ltD (dist p.1 p.2) hexSize = false
  | Some b =>
      b ∈ visited /\ acc.1 = dist b.1 b.2 /\
      ltD (dist b.1 b.2) hexSize = true /\
      forall p, p ∈ visited -> ltD (dist p.1 p.2) hexSize = true ->
                ltD (dist p.1 p.2) (dist b.1 b.2) = false
  end.

(** A content cell holding -2^53, as a text with that token loads it. *)
Definition huge_cell : HexGrid :=
  mkHexGrid 1 1
    [ [0; 0; 0];
      [0; - 2 ^ 53; 0];
      [0; 0; 0] ] [] [].

(** The state in which [computePerimeter] calls [dfs(0, 0)] on a grid with
    rows: a fresh visited matrix, no edge, count 0. *)
Definition trace_start (st : HexGrid) : HexGrid * Z :=
  (set_perimeterEdges
     (set_isVisited st
        (replicate (Z.to_nat (H st + 2)) (replicate (Z.to_nat (W st + 2)) false)))
     [], 0).

(** * Proofs *)

(** ** Arrays and matrices *)

Lemma js_get_inside {A : Type} (a : list A) (i : Z) :
  0 <= i < Z.of_nat (length a) -> exists v, js_get a i = Some v.
Proof.
  intros Hi. unfold js_get. rewrite decide_True by lia.
  destruct (lookup_lt_is_Some_2 a (Z.to_nat i)) as [v Hv]; [lia | eauto].
Qed.

Lemma js_get_bound {A : Type} (a : list A) (i : Z) (v : A) :
  js_get a i = Some v -> 0 <= i < Z.of_nat (length a).
Proof.
  unfold js_get. case_decide; [| done].
  intros Hv%lookup_lt_Some. lia.
Qed.

Lemma js_get_lookup {A : Type} (a : list A) (i : Z) :
  0 <= i -> js_get a i = a !! Z.to_nat i.
Proof. intros Hi. unfold js_get. by rewrite decide_True. Qed.

Lemma js_get_insert_ne {A : Type} (a : list A) (i j : Z) (v : A) :
  0 <= i -> i <> j -> js_get (<[Z.to_nat i := v]> a) j = js_get a j.
Proof.
  intros Hi Hne. unfold js_get. case_decide; [| done].
  apply list_lookup_insert_ne. lia.
Qed.

Lemma js_get_insert_eq {A : Type} (a : list A) (i : Z) (v : A) :
  0 <= i < Z.of_nat (length a) -> js_get (<[Z.to_nat i := v]> a) i = Some v.
Proof.
  intros Hi. unfold js_get. rewrite decide_True by lia.
  apply list_lookup_insert_eq. lia.
Qed.

Lemma js_set_inside {A : Type} (a : list A) (i : Z) (v : A) :
  0 <= i < Z.of_nat (length a) -> js_set a i v = Some (<[Z.to_nat i := v]> a).
Proof. intros Hi. unfold js_set. by rewrite decide_True. Qed.

Lemma shape_row {A : Type} (m : list (list A)) (rows cols y : Z) :
  shape m rows cols -> 0 <= y < rows ->
  exists r, js_get m y = Some r /\ Z.of_nat (length r) = cols.
Proof.
  intros [Hlen Hall] Hy.
  destruct (js_get_inside m y) as [r Hr]; [lia |].
  exists r. split; [done |].
  rewrite js_get_lookup in Hr by lia.
  by eapply (Forall_lookup_1 _ _ _ _ Hall Hr).
Qed.

Lemma shape_at2 {A : Type} (m : list (list A)) (rows cols y x : Z) :
  shape m rows cols -> 0 <= y < rows -> 0 <= x < cols ->
  exists v, at2 m y x = Ret (Some v).
Proof.
  intros Hm Hy Hx.
  destruct (shape_row m rows cols y Hm Hy) as (r & Hr & Hlen).
  destruct (js_get_inside r x) as [v Hv]; [lia |].
  exists v. unfold at2. by rewrite Hr, Hv.
Qed.

Lemma shape_replicate {A : Type} (rows cols : Z) (v : A) :
  0 <= rows -> 0 <= cols ->
  shape (replicate (Z.to_nat rows) (replicate (Z.to_nat cols) v)) rows cols.
Proof.
  intros Hr Hc. split.
  - rewrite length_replicate. lia.
  - apply Forall_replicate. rewrite length_replicate. lia.
Qed.

(** An in-range [m[y][x] = v] succeeds, keeps the shape, and changes that
    entry only. *)
Lemma shape_store2 {A : Type} (m : list (list A)) (rows cols y x : Z) (v : A) :
  shape m rows cols -> 0 <= y < rows -> 0 <= x < cols ->
  exists m', store2 m y x v = Ret m' /\ shape m' rows cols /\
    at2 m' y x = Ret (Some v) /\
    (forall y' x', (y', x') <> (y, x) -> at2 m' y' x' = at2 m y' x').
Proof.
  intros Hm Hy Hx.
  destruct (shape_row m rows cols y Hm Hy) as (r & Hr & Hlen).
  destruct Hm as [Hrows Hall].
  exists (<[Z.to_nat y := <[Z.to_nat x := v]> r]> m).
  unfold store2. rewrite Hr.
  rewrite (js_set_inside r) by lia. rewrite (js_set_inside m) by lia.
  split; [done |]. split; [| split].
  - split; [by rewrite length_insert |].
    apply Forall_insert; [done |]. by rewrite length_insert.
  - unfold at2. rewrite js_get_insert_eq by lia.
    by rewrite js_get_insert_eq by lia.
  - intros y' x' Hne. unfold at2.
    destruct (decide (y' = y)) as [-> | Hy'].
    + rewrite js_get_insert_eq by lia. rewrite Hr.
      rewrite js_get_insert_ne; [done | lia | congruence].
    + by rewrite js_get_insert_ne by lia.
Qed.

Lemma filter_false_insert (r : list bool) (i : nat) :
  r !! i = Some false ->
  S (length (filter (fun b => b = false) (<[i := true]> r)))
  = length (filter (fun b => b = false) r).
Proof.
  revert i. induction r as [| b r IH]; intros [| i] Hi; simplify_eq/=.
  - by rewrite filter_cons_False by done.
  - specialize (IH i Hi). rewrite !filter_cons.
    repeat case_decide; simpl; lia.
Qed.

Lemma unseen_insert (m : list (list bool)) (i j : nat) (r : list bool) :
  m !! i = Some r -> r !! j = Some false ->
  S (unseen (<[i := <[j := true]> r]> m)) = unseen m.
Proof.
  unfold unseen. revert i. induction m as [| r0 m IH]; intros [| i] Hi Hj; simplify_eq/=.
  - pose proof (filter_false_insert _ _ Hj). lia.
  - specialize (IH i Hi Hj). lia.
Qed.

(** Marking an unvisited cell: the write succeeds and exactly that cell
    becomes seen. *)
Lemma mark_cell (vis : list (list bool)) (rows cols : Z) (c : cell) :
  shape vis rows cols -> 0 <= c.1 < rows -> 0 <= c.2 < cols ->
  seen vis c = false ->
  exists vis', store2 vis c.1 c.2 true = Ret vis' /\ shape vis' rows cols /\
    S (unseen vis') = unseen vis /\
    (forall e, seen vis' e = if decide (e = c) then true else seen vis e).
Proof.
  intros Hm Hy Hx Hs. destruct c as [y x]; simpl in *.
  destruct (shape_store2 vis rows cols y x true Hm Hy Hx)
    as (vis' & Hst & Hsh & Hat & Hoth).
  exists vis'. split; [done |]. split; [done |]. split.
  - destruct (shape_row vis rows cols y Hm Hy) as (r & Hr & Hlen).
    destruct (js_get_inside r x) as [b Hb]; [lia |].
    unfold seen, at2 in Hs. simpl in Hs. rewrite Hr, Hb in Hs. simpl in Hs. subst b.
    unfold store2 in Hst. rewrite Hr in Hst.
    rewrite (js_set_inside r) in Hst by lia.
    destruct Hm as [Hrows _]. rewrite (js_set_inside vis) in Hst by lia.
    injection Hst as <-.
    rewrite js_get_lookup in Hr by lia. rewrite js_get_lookup in Hb by lia.
    by apply unseen_insert.
  - intros [y' x']. unfold seen. simpl. case_decide as Heq.
    + injection Heq as -> ->. by rewrite Hat.
    + by rewrite Hoth.
Qed.

Lemma seen_replicate_false (rows cols : Z) (c : cell) :
  seen (replicate (Z.to_nat rows) (replicate (Z.to_nat cols) false)) c = false.
Proof.
  unfold seen, at2, js_get.
  case_decide; [| done].
  destruct (replicate _ _ !! _) as [r |] eqn:Hr; [| done].
  apply lookup_replicate in Hr as [-> _].
  case_decide; [| done]. simpl.
  destruct (replicate _ _ !! _) as [b |] eqn:Hb; [| done].
  by apply lookup_replicate in Hb as [-> _].
Qed.

(** ** The neighbour tables *)

Ltac dir_cases d :=
  let Hd := fresh "Hd" in
  assert (d = 0 \/ d = 1 \/ d = 2 \/ d = 3 \/ d = 4 \/ d = 5) as Hd by lia;
  destruct_or! Hd; subst d.

Lemma rem2_even (y : Z) : 0 <= y -> Z.rem y 2 = if Z.even y then 0 else 1.
Proof. intros Hy. rewrite Z.rem_mod_nonneg by lia. apply Zmod_even. Qed.

(** What [dfs] adds to [(y, x)] in direction [d] is the entry [d] of the
    specification's table for the parity of [y]. *)
Lemma neighbour_table (c : cell) (d : Z) :
  0 <= c.1 -> 0 <= d < 6 ->
  exists o, spec_offsets c.1 !! Z.to_nat d = Some o /\
            neighbour c d = Ret (c.1 + o.2, c.2 + o.1).
Proof.
  destruct c as [y x]. simpl. intros Hy Hd.
  unfold neighbour, offset, spec_offsets. simpl. rewrite (rem2_even y Hy).
  destruct (Z.even y); dir_cases d; eexists; (split; [reflexivity | reflexivity]).
Qed.

Lemma neighbour_even (y x d : Z) :
  0 <= y -> Z.even y = true -> 0 <= d < 6 ->
  neighbour (y, x) d =
    Ret (if decide (d = 0) then (y, x + 1) else
         if decide (d = 1) then (y + 1, x) else
         if decide (d = 2) then (y + 1, x - 1) else
         if decide (d = 3) then (y, x - 1) else
         if decide (d = 4) then (y - 1, x - 1) else (y - 1, x)).
Proof.
  intros Hy He Hd.
  destruct (neighbour_table (y, x) d Hy Hd) as (o & Ho & ->).
  unfold spec_offsets in Ho. simpl in Ho. rewrite He in Ho.
  dir_cases d; simplify_eq/=; f_equal; f_equal; lia.
Qed.

Lemma neighbour_odd (y x d : Z) :
  0 <= y -> Z.even y = false -> 0 <= d < 6 ->
  neighbour (y, x) d =
    Ret (if decide (d = 0) then (y, x + 1) else
         if decide (d = 1) then (y + 1, x + 1) else
         if decide (d = 2) then (y + 1, x) else
         if decide (d = 3) then (y, x - 1) else
         if decide (d = 4) then (y - 1, x) else (y - 1, x + 1)).
Proof.
  intros Hy He Hd.
  destruct (neighbour_table (y, x) d Hy Hd) as (o & Ho & ->).
  unfold spec_offsets in Ho. simpl in Ho. rewrite He in Ho.
  dir_cases d; simplify_eq/=; f_equal; f_equal; lia.
Qed.

Lemma neighbour_total (c : cell) (d : Z) :
  0 <= c.1 -> 0 <= d < 6 -> exists n, neighbour c d = Ret n.
Proof.
  intros Hy Hd. destruct (neighbour_table c d Hy Hd) as (o & _ & Hn). eauto.
Qed.

Lemma even_succ_row (y : Z) : Z.even (y + 1) = negb (Z.even y).
Proof. rewrite Z.even_add. by destruct (Z.even y). Qed.

Lemma even_pred_row (y : Z) : Z.even (y - 1) = negb (Z.even y).
Proof. rewrite Z.even_sub. by destruct (Z.even y). Qed.

(** Solves goals about neighbours of a cell once the parity of its row is
    known: it rewrites every [neighbour] at an explicit direction. *)
Ltac neighbour_simpl :=
  repeat match goal with
  | He : Z.even ?y = true |- context [neighbour (?y, ?x) ?d] =>
      rewrite (neighbour_even y x d) by (done || lia)
  | He : Z.even ?y = false |- context [neighbour (?y, ?x) ?d] =>
      rewrite (neighbour_odd y x d) by (done || lia)
  | He : Z.even ?y = true, Hn : context [neighbour (?y, ?x) ?d] |- _ =>
      rewrite (neighbour_even y x d) in Hn by (done || lia)
  | He : Z.even ?y = false, Hn : context [neighbour (?y, ?x) ?d] |- _ =>
      rewrite (neighbour_odd y x d) in Hn by (done || lia)
  end.

(** Going back: from the neighbour in direction [d], direction
    [(d + 3) % 6] leads to the cell one came from. *)
Lemma neighbour_back (e n : cell) (d : Z) :
  0 <= e.1 -> 0 <= n.1 -> 0 <= d < 6 ->
  neighbour e d = Ret n -> neighbour n (Z.rem (d + 3) 6) = Ret e.
Proof.
  destruct e as [y x], n as [ny nx]. simpl. intros Hy Hny Hd Hn.
  destruct (Z.even y) eqn:He; neighbour_simpl;
    dir_cases d; simplify_eq/=.
  all: try (assert (Z.even (y + 1) = negb (Z.even y)) as He1 by apply even_succ_row;
            rewrite He in He1; simpl in He1).
  all: try (assert (Z.even (y - 1) = negb (Z.even y)) as He2 by apply even_pred_row;
            rewrite He in He2; simpl in He2).
  all: neighbour_simpl; simpl; f_equal; f_equal; lia.
Qed.

(** Two directions out of one cell lead to two cells. *)
Lemma neighbour_inj_dir (e : cell) (d1 d2 : Z) :
  0 <= e.1 -> 0 <= d1 < 6 -> 0 <= d2 < 6 ->
  neighbour e d1 = neighbour e d2 -> d1 = d2.
Proof.
  destruct e as [y x]. simpl. intros Hy H1 H2 Hn.
  destruct (Z.even y) eqn:He; neighbour_simpl;
    dir_cases d1; dir_cases d2; simplify_eq/=; lia.
Qed.

Lemma back_dir_range (d : Z) : 0 <= d < 6 -> 0 <= Z.rem (d + 3) 6 < 6.
Proof. intros Hd. dir_cases d; done. Qed.

Lemma back_dir_inj (d1 d2 : Z) :
  0 <= d1 < 6 -> 0 <= d2 < 6 -> Z.rem (d1 + 3) 6 = Z.rem (d2 + 3) 6 -> d1 = d2.
Proof. intros H1 H2. dir_cases d1; dir_cases d2; done. Qed.

Lemma back_dir_back (d : Z) :
  0 <= d < 6 -> Z.rem (Z.rem (d + 3) 6 + 3) 6 = d.
Proof. intros Hd. dir_cases d; done. Qed.

(** ** Reachability *)

Lemma reach_in_grid (st : HexGrid) (e : cell) : reach st e -> in_grid st e.
Proof. intros [? ? | e' d n ? (? & ? & ?) ?]; done. Qed.

Lemma reach_empty (st : HexGrid) (e : cell) : reach st e -> ~ filled st e.
Proof. intros [? ? | e' d n ? ? ?]; done. Qed.

Lemma out_of_bounds_false (st : HexGrid) (n : cell) :
  out_of_bounds st n.1 n.2 = false <-> in_grid st n.
Proof. unfold out_of_bounds, in_grid. destruct n as [ny nx]. simpl. lia. Qed.

Lemma grid_ok_cell (st : HexGrid) (c : cell) :
  grid_ok st -> in_grid st c -> exists v, at2 (grid st) c.1 c.2 = Ret (Some v).
Proof.
  intros (? & ? & Hsh) [? ?].
  eapply shape_at2; [exact Hsh | lia | lia].
Qed.

Lemma is_one_filled (st : HexGrid) (c : cell) (o : option Z) :
  at2 (grid st) c.1 c.2 = Ret o -> is_one o = true <-> filled st c.
Proof.
  intros Ho. unfold filled. rewrite Ho. destruct o as [v |]; simpl.
  - rewrite bool_decide_eq_true. split; [by intros -> | by intros [= ->]].
  - split; [done | by intros [=]].
Qed.

(** ** The flood fill *)

Lemma probe_neighbour call (c n : cell) (d : Z) (s : HexGrid * Z) :
  neighbour c d = Ret n ->
  probe call c.1 c.2 d s =
    if out_of_bounds s.1 n.1 n.2 then Ret s
    else
      o ← at2 (grid s.1) n.1 n.2;
      if is_one o then
        Ret (set_perimeterEdges s.1
               (perimeterEdges s.1 ++ [mkEdge n.2 n.1 (Z.rem (d + 3) 6)]),
             s.2 + 1)
      else call n.1 n.2 s.
Proof.
  unfold neighbour, probe.
  destruct (offset dy c.1 d) as [oy | |]; simpl; [| done | done].
  destruct (offset dx c.1 d) as [ox | |]; simpl; [| done | done].
  by intros [= <-].
Qed.

Lemma edge_of_neighbour (c n : cell) (d : Z) :
  neighbour c d = Ret n -> edge_of (c, d) = mkEdge n.2 n.1 (Z.rem (d + 3) 6).
Proof. intros Hn. unfold edge_of. simpl. by rewrite Hn. Qed.

Section Trace.
Variable st0 : HexGrid.
Hypothesis Hok : grid_ok st0.

Lemma traced_refl (c : cell) (s : HexGrid * Z) :
  tracing st0 s -> traced st0 c [] s s.
Proof.
  intros Hs. split; [done |]. split; [done |]. split; [done |]. split.
  - intros e [He1 He2]. congruence.
  - exists []. simpl. rewrite app_nil_r. split; [done |]. split; [lia |].
    split; [constructor |].
    intros p. split.
    + intros Hp. by apply elem_of_nil in Hp.
    + intros [[[? ?] _] | (_ & Hp & _)]; [congruence | by apply elem_of_nil in Hp].
Qed.

(** Two consecutive stretches of the loop at [c] make one. *)
Lemma traced_seq (c : cell) (ds1 ds2 : list Z) (s s1 s2 : HexGrid * Z) :
  seen (isVisited s.1) c = true ->
  (forall d, d ∈ ds1 -> d ∉ ds2) ->
  traced st0 c ds1 s s1 -> traced st0 c ds2 s1 s2 ->
  traced st0 c (ds1 ++ ds2) s s2.
Proof.
  intros Hc Hdisj (Ht1 & Hm1 & Hu1 & Hf1 & ps1 & He1 & Hn1 & Hd1 & Hp1)
                  (Ht2 & Hm2 & Hu2 & Hf2 & ps2 & He2 & Hn2 & Hd2 & Hp2).
  assert (forall e, fresh s s2 e -> fresh s s1 e \/ fresh s1 s2 e) as Hsplit.
  { intros e [Ha Hb]. unfold fresh.
    destruct (seen (isVisited s1.1) e); [by left | by right]. }
  split; [done |]. split; [by auto |]. split; [lia |]. split.
  - intros e [Hfe | Hfe]%Hsplit.
    + destruct (Hf1 e Hfe) as [Hr Hcl]. split; [done |].
      intros d n Hadj Hnf. apply Hm2. by eapply Hcl.
    + by apply Hf2.
  - exists (ps1 ++ ps2). split; [| split; [| split]].
    + rewrite He2, He1, fmap_app. by rewrite app_assoc.
    + rewrite Hn2, Hn1, length_app. lia.
    + apply NoDup_app. split; [done |]. split; [| done].
      intros p [[[Ha Hb] _] | (Hpc & Hpd & _)]%Hp1
               [[[Ha' Hb'] _] | (Hpc' & Hpd' & _)]%Hp2.
      * congruence.
      * rewrite Hpc' in Ha. congruence.
      * rewrite Hpc in Ha'. rewrite (Hm1 c Hc) in Ha'. done.
      * by eapply Hdisj.
    + intros p. rewrite elem_of_app, Hp1, Hp2, elem_of_app. split.
      * intros [[[[Ha Hb] Hh] | (? & ? & ?)] | [[[Ha Hb] Hh] | (? & ? & ?)]].
        -- left. split; [| done]. split; [done | by apply Hm2].
        -- right. auto.
        -- left. split; [| done]. split; [| done].
           destruct (seen (isVisited s.1) p.1) eqn:Hsp; [| done].
           apply Hm1 in Hsp. congruence.
        -- right. auto.
      * intros [[[Hfe | Hfe]%Hsplit Hh] | (? & [? | ?] & ?)]; auto 6.
Qed.

(** One direction of the loop at a visited, reachable cell. *)
Lemma probe_traced (fuel : nat) (c : cell) (d : Z) (s : HexGrid * Z) :
  dfs_sound st0 fuel ->
  tracing st0 s -> reach st0 c -> 0 <= d < 6 ->
  (unseen (isVisited s.1) < fuel)%nat ->
  exists s', probe (dfs fuel) c.1 c.2 d s = Ret s' /\ traced st0 c [d] s s' /\
    (forall n, adj st0 c d n -> ~ filled st0 n -> seen (isVisited s'.1) n = true).
Proof.
  intros IH Hs Hc Hd Hfuel.
  pose proof (reach_in_grid _ _ Hc) as Hcin.
  destruct (neighbour_total c d) as [n Hn]; [apply Hcin | done |].
  rewrite (probe_neighbour _ c n d s Hn).
  destruct Hs as (HW & HH & Hg & Hvis).
  assert (out_of_bounds s.1 n.1 n.2 = out_of_bounds st0 n.1 n.2) as ->.
  { unfold out_of_bounds. by rewrite HW, HH. }
  rewrite Hg.
  destruct (out_of_bounds st0 n.1 n.2) eqn:Hout.
  { (* outside the grid: skipped *)
    exists s. split; [done |].
    assert (~ in_grid st0 n) as Hnin.
    { rewrite <- out_of_bounds_false. congruence. }
    split.
    - destruct (traced_refl c s) as (? & ? & ? & ? & ps & ? & ? & ? & Hps); [done |].
      split; [done |]. split; [done |]. split; [done |]. split; [done |].
      exists ps. split; [done |]. split; [done |]. split; [done |].
      intros p. rewrite Hps. split.
      + intros [? | (_ & Hp & _)]; [by left | by apply elem_of_nil in Hp].
      + intros [? | (Hp1 & Hp2 & n' & (_ & Hn' & Hin') & _)]; [by left |].
        apply list_elem_of_singleton in Hp2. rewrite Hp1, Hp2 in Hn'.
        congruence.
    - intros n' (_ & Hn' & Hin') _. congruence. }
  apply out_of_bounds_false in Hout.
  destruct (grid_ok_cell st0 n Hok Hout) as [v Hv]. rewrite Hv. simpl.
  change (bool_decide (v = 1)) with (is_one (Some v)).
  pose proof (is_one_filled st0 n (Some v) Hv) as Hone.
  destruct (is_one (Some v)) eqn:Hisone.
  { (* a filled neighbour: one edge *)
    assert (filled st0 n) as Hfill by by apply Hone.
    eexists. split; [done |]. split.
    - split; [done |]. split; [done |]. split; [done |]. split.
      + intros e [He1 He2]. simpl in He2. congruence.
      + exists [(c, d)]. simpl. split; [| split; [| split]].
        * by rewrite (edge_of_neighbour c n d Hn).
        * lia.
        * apply NoDup_singleton.
        * intros p. rewrite list_elem_of_singleton. split.
          -- intros ->. right. simpl. split; [done |].
             split; [by apply list_elem_of_singleton |].
             exists n. by split.
          -- intros [[[He1 He2] _] | (Hp1 & Hp2 & _)]; [simpl in He2; congruence |].
             apply list_elem_of_singleton in Hp2. destruct p. simpl in *. congruence.
    - intros n' (_ & Hn' & _) Hnf. congruence. }
  (* an empty neighbour: recursive call *)
  assert (~ filled st0 n) as Hnf.
  { intros Hf. apply Hone in Hf. congruence. }
  destruct (IH n s) as (s' & Hrun & Htr & Hseen); [done | done | | done |].
  { intros _. by eapply (reach_step st0 c d n). }
  exists s'. split; [done |]. split.
  - destruct Htr as (? & ? & ? & ? & ps & ? & ? & ? & Hps).
    split; [done |]. split; [done |]. split; [done |]. split; [done |].
    exists ps. split; [done |]. split; [done |]. split; [done |].
    intros p. rewrite Hps. split.
    + intros [? | (_ & Hp & _)]; [by left | by apply elem_of_nil in Hp].
    + intros [? | (Hp1 & Hp2 & n' & (_ & Hn' & _) & Hf')]; [by left |].
      apply list_elem_of_singleton in Hp2. rewrite Hp1, Hp2 in Hn'.
      congruence.
  - intros n' (_ & Hn' & _) _. assert (n' = n) as -> by congruence. auto.
Qed.

(** The whole loop at a visited, reachable cell. *)
Lemma loop_traced (fuel : nat) (c : cell) (ds : list Z) (s : HexGrid * Z) :
  dfs_sound st0 fuel ->
  tracing st0 s -> reach st0 c -> seen (isVisited s.1) c = true ->
  NoDup ds -> (forall d, d ∈ ds -> 0 <= d < 6) ->
  (unseen (isVisited s.1) < fuel)%nat ->
  exists s', for_each (probe (dfs fuel) c.1 c.2) ds s = Ret s' /\
    traced st0 c ds s s' /\
    (forall d n, d ∈ ds -> adj st0 c d n -> ~ filled st0 n ->
                 seen (isVisited s'.1) n = true).
Proof.
  intros IH Hs Hc Hseen Hnd Hds Hfuel.
  revert s Hs Hseen Hfuel.
  induction ds as [| d ds IHds]; intros s Hs Hseen Hfuel.
  - exists s. split; [done |]. split; [by apply traced_refl |].
    intros d n Hd. by apply elem_of_nil in Hd.
  - apply NoDup_cons in Hnd as [Hd Hnd].
    destruct (probe_traced fuel c d s) as (s1 & Hrun1 & Htr1 & Hcl1);
      [done | done | done | apply Hds; left | done |].
    pose proof Htr1 as (Hs1 & Hm1 & Hu1 & _).
    destruct (IHds Hnd) with (s := s1) as (s2 & Hrun2 & Htr2 & Hcl2);
      [intros d' Hd'; apply Hds; by right | done | by apply Hm1 | lia |].
    exists s2. simpl. rewrite Hrun1. simpl. split; [done |]. split.
    + apply (traced_seq c [d] ds s s1 s2); [done | | done | done].
      intros d' ->%list_elem_of_singleton. done.
    + pose proof Htr2 as (_ & Hm2 & _).
      intros d' n [-> | Hd']%elem_of_cons Hadj Hnf.
      * apply Hm2. by apply Hcl1.
      * by eapply Hcl2.
Qed.

(** [dfs] with enough fuel returns, and what it did is a stretch of the
    fill that finished every cell it visited. *)
Lemma dfs_traced (fuel : nat) : dfs_sound st0 fuel.
Proof.
  induction fuel as [| fuel IH]; intros c s Hs Hcin Hreach Hfuel; [lia |].
  pose proof Hs as (HW & HH & Hg & Hvis).
  simpl. rewrite Hg.
  destruct (grid_ok_cell st0 c Hok Hcin) as [v Hv]. rewrite Hv. simpl.
  change (bool_decide (v = 1)) with (is_one (Some v)).
  pose proof (is_one_filled st0 c (Some v) Hv) as Hone.
  destruct (is_one (Some v)) eqn:Hisone.
  { exists s. split; [done |]. split; [by apply traced_refl |].
    intros Hnf. exfalso. apply Hnf. by apply Hone. }
  assert (~ filled st0 c) as Hnf.
  { intros Hf. apply Hone in Hf. congruence. }
  destruct Hcin as [Hy Hx].
  destruct (shape_at2 (isVisited s.1) _ _ c.1 c.2 Hvis) as [b Hb]; [lia | lia |].
  rewrite Hb. simpl.
  assert (seen (isVisited s.1) c = b) as Hsb.
  { unfold seen. by rewrite Hb. }
  destruct b.
  { exists s. split; [done |]. split; [by apply traced_refl | done]. }
  destruct (mark_cell (isVisited s.1) _ _ c Hvis) as (vis & Hst & Hsh & Hun & Hsv);
    [lia | lia | done |].
  rewrite Hst. simpl.
  set (s1 := (set_isVisited s.1 vis, s.2)).
  assert (tracing st0 s1) as Hs1 by done.
  assert (seen (isVisited s1.1) c = true) as Hc1.
  { simpl. rewrite Hsv. by rewrite decide_True. }
  destruct (loop_traced fuel c (seqZ 0 6) s1) as (s' & Hrun & Htr & Hcl);
    [done | done | by apply Hreach | done | apply NoDup_seqZ
    | intros d Hd%elem_of_seqZ; lia | simpl; lia |].
  exists s'. split; [done |].
  destruct Htr as (Hs' & Hm & Hu & Hf & ps & He & Hn & Hnd & Hps).
  assert (forall e, seen (isVisited s.1) e = true -> seen (isVisited s1.1) e = true)
    as Hm0.
  { intros e He0. simpl. rewrite Hsv. by case_decide. }
  assert (forall e, fresh s s' e -> e = c \/ fresh s1 s' e) as Hsplit.
  { intros e [Ha Hb']. destruct (decide (e = c)) as [-> | Hne]; [by left |].
    right. split; [| done]. simpl. rewrite Hsv. by rewrite decide_False. }
  split; [| by auto].
  split; [done |]. split; [by auto |]. split; [simpl in Hu; lia |]. split.
  - intros e [-> | Hfe]%Hsplit; [| by apply Hf].
    split; [by apply Hreach |].
    intros d n Hadj Hnfn. eapply Hcl; [| done | done].
    apply elem_of_seqZ. destruct Hadj as [? _]. lia.
  - exists ps. split; [done |]. split; [done |]. split; [done |].
    intros p. rewrite Hps. split.
    + intros [[[Ha Hb'] Hh] | (Hp1 & _ & Hh)]; left; (split; [| done]).
      * split; [| done].
        destruct (seen (isVisited s.1) p.1) eqn:Hsp; [| done].
        apply Hm0 in Hsp. congruence.
      * rewrite Hp1. split; [done | by apply Hm].
    + intros [[[-> | Hfe]%Hsplit Hh] | (_ & Hp & _)];
        [| by left | by apply elem_of_nil in Hp].
      right. split; [done |]. split; [| done].
      apply elem_of_seqZ. destruct Hh as (n & (? & _) & _). lia.
Qed.
End Trace.

Lemma bind_Ret {A B : Type} (a : A) (k : A -> outcome B) : (Ret a ≫= k) = k a.
Proof. reflexivity. Qed.

Lemma unseen_bound (vis : list (list bool)) (n : nat) :
  Forall (fun r => length r = n) vis -> (unseen vis <= length vis * n)%nat.
Proof.
  unfold unseen. induction 1 as [| r vis Hr _ IH]; simpl; [lia |].
  pose proof (length_filter (fun b => b = false) r). lia.
Qed.

Lemma alloc2_ok {A : Type} (rows cols : Z) (v : A) :
  0 < rows -> 0 <= cols ->
  alloc2 rows cols v = Ret (replicate (Z.to_nat rows) (replicate (Z.to_nat cols) v)).
Proof.
  intros Hr Hc. unfold alloc2.
  rewrite decide_False by lia. by rewrite decide_False by lia.
Qed.

(** The trace of a well-shaped grid: [computePerimeter] returns, leaves the
    grid alone, visits exactly the empty cells reachable from (0,0), and its
    edge list holds one entry per exposed pair, the count being their
    number. *)
Lemma computePerimeter_spec (st : HexGrid) :
  grid_ok st ->
  exists st' ps,
    computePerimeter st = Ret (st', Z.of_nat (length ps)) /\
    W st' = W st /\ H st' = H st /\ grid st' = grid st /\
    perimeterEdges st' = edge_of <$> ps /\
    NoDup ps /\
    (forall p, p ∈ ps <-> exposed st p) /\
    (forall e, seen (isVisited st') e = true <-> reach st e).
Proof.
  intros Hok. pose proof Hok as (HH & HW & Hsh).
  unfold computePerimeter. rewrite alloc2_ok by lia. rewrite bind_Ret.
  set (vis := replicate (Z.to_nat (H st + 2)) (replicate (Z.to_nat (W st + 2)) false)).
  set (s1 := (set_perimeterEdges (set_isVisited st vis) [], 0)).
  assert (tracing st s1) as Hs1.
  { repeat split; try done; simpl.
    - unfold vis. rewrite length_replicate. lia.
    - unfold vis. apply Forall_replicate. rewrite length_replicate. lia. }
  assert (forall e, seen (isVisited s1.1) e = false) as Hnone.
  { intros e. apply seen_replicate_false. }
  destruct (dfs_traced st Hok (dfs_fuel st) (0, 0) s1) as (s' & Hrun & Htr & Hseed).
  - done.
  - unfold in_grid. simpl. lia.
  - intros Hnf. apply reach_seed; [unfold in_grid; simpl; lia | done].
  - simpl. unfold dfs_fuel.
    assert (unseen vis <= Z.to_nat (H st + 2) * Z.to_nat (W st + 2))%nat as Hle.
    { pose proof (unseen_bound vis (Z.to_nat (W st + 2))) as Hb.
      assert (length vis = Z.to_nat (H st + 2)) as Hlen
        by (unfold vis; apply length_replicate).
      rewrite Hlen in Hb. apply Hb.
      unfold vis. apply Forall_replicate. by rewrite length_replicate. }
    rewrite Z2Nat.inj_mul by lia. lia.
  - cbn [fst snd] in Hrun.
    destruct Htr as ((HW' & HH' & Hg' & _) & Hm & Hu & Hf & ps & He & Hn & Hnd & Hps).
    assert (forall e, seen (isVisited s'.1) e = true <-> reach st e) as Hvisited.
    { intros e. split.
      - intros Hse. by apply Hf.
      - induction 1 as [Hin Hnf | e d n Hr IHr Hadj Hnf].
        + by apply Hseed.
        + destruct (Hf e) as [_ Hcl]; [by split |]. by eapply Hcl. }
    exists s'.1, ps. split; [| split; [done | split; [done | split; [done |]]]].
    + rewrite Hrun. simpl in Hn. destruct s' as [st' n']. simpl in *. by rewrite Hn.
    + split; [done |]. split; [done |]. split; [| done].
      intros p. rewrite Hps. unfold exposed. rewrite <- Hvisited. split.
      * intros [[[_ Hb] Hh] | (_ & Hp & _)]; [done | by apply elem_of_nil in Hp].
      * intros [Hb Hh]. left. by split.
Qed.

(** ** The trace does not touch the grid *)

Lemma for_each_inv {A S : Type} (P : S -> Prop) (body : A -> S -> outcome S)
    (vs : list A) (s s' : S) :
  (forall v t t', v ∈ vs -> P t -> body v t = Ret t' -> P t') ->
  P s -> for_each body vs s = Ret s' -> P s'.
Proof.
  revert s.
  induction vs as [| v vs IH]; intros s Hbody Hs; simpl.
  - by intros [= <-].
  - destruct (body v s) as [t | |] eqn:Hb; simpl; [| done | done].
    apply IH.
    + intros v' t1 t2 Hv'. apply Hbody. by right.
    + eapply Hbody; [by left | done | done].
Qed.

Lemma for_each_total {A S : Type} (P : S -> Prop) (body : A -> S -> outcome S)
    (vs : list A) (s : S) :
  (forall v t, v ∈ vs -> P t -> exists t', body v t = Ret t' /\ P t') ->
  P s -> exists s', for_each body vs s = Ret s' /\ P s'.
Proof.
  revert s.
  induction vs as [| v vs IH]; intros s Hbody Hs; simpl.
  - by exists s.
  - destruct (Hbody v s) as (t & Hb & Ht); [by left | done |].
    rewrite Hb. simpl. apply IH; [| done].
    intros v' t1 Hv'. apply Hbody. by right.
Qed.

Lemma dfs_unfold (fuel : nat) (y x : Z) (s : HexGrid * Z) :
  dfs (S fuel) y x s =
    (c ← at2 (grid s.1) y x;
     if is_one c then Ret s
     else
       v ← at2 (isVisited s.1) y x;
       if truthy v then Ret s
       else
         vis ← store2 (isVisited s.1) y x true;
         for_each (probe (dfs fuel) y x) (seqZ 0 6) (set_isVisited s.1 vis, s.2)).
Proof. reflexivity. Qed.

Lemma dfs_same_grid (st : HexGrid) (fuel : nat) (y x : Z) (s s' : HexGrid * Z) :
  same_grid st s.1 -> dfs fuel y x s = Ret s' -> same_grid st s'.1.
Proof.
  revert y x s s'. induction fuel as [| fuel IH]; intros y x s s' Hs; [done |].
  rewrite dfs_unfold.
  destruct (at2 (grid s.1) y x) as [c | |]; cbn [mbind outcome_bind]; [| done | done].
  destruct (is_one c); [by intros [= <-] |].
  destruct (at2 (isVisited s.1) y x) as [v | |]; cbn [mbind outcome_bind];
    [| done | done].
  destruct (truthy v); [by intros [= <-] |].
  destruct (store2 (isVisited s.1) y x true) as [vis | |]; cbn [mbind outcome_bind];
    [| done | done].
  apply (for_each_inv (fun t => same_grid st t.1)); [| done].
  intros d t t' _ Ht. unfold probe.
  destruct (offset dy y d) as [oy | |]; cbn [mbind outcome_bind]; [| done | done].
  destruct (offset dx y d) as [ox | |]; cbn [mbind outcome_bind]; [| done | done].
  destruct (out_of_bounds t.1 (y + oy) (x + ox)); [by intros [= <-] |].
  destruct (at2 (grid t.1) (y + oy) (x + ox)) as [c' | |]; cbn [mbind outcome_bind];
    [| done | done].
  destruct (is_one c'); [by intros [= <-] |].
  by apply IH.
Qed.

Lemma computePerimeter_same_grid (st st' : HexGrid) (n : Z) :
  computePerimeter st = Ret (st', n) -> same_grid st st'.
Proof.
  unfold computePerimeter.
  destruct (alloc2 (H st + 2) (W st + 2) false) as [vis | |]; cbn [mbind outcome_bind];
    [| done | done].
  intros Hrun. by apply (dfs_same_grid st) in Hrun.
Qed.

(** The result is a function of the dimensions and the grid alone. *)
Lemma computePerimeter_ext (st1 st2 : HexGrid) :
  same_grid st1 st2 -> computePerimeter st2 = computePerimeter st1.
Proof.
  destruct st1, st2. intros (? & ? & ?). simpl in *. by subst.
Qed.

(** ** Edges and the sides they name *)

Lemma exposed_back (st : HexGrid) (e n : cell) (d : Z) :
  reach st e -> adj st e d n -> neighbour n (Z.rem (d + 3) 6) = Ret e.
Proof.
  intros Hr (Hd & Hn & Hin).
  apply neighbour_back; [apply (reach_in_grid _ _ Hr) | apply Hin | done | done].
Qed.

(** Distinct exposed pairs push distinct entries. *)
Lemma edge_of_inj (st : HexGrid) (p q : cell * Z) :
  exposed st p -> exposed st q -> edge_of p = edge_of q -> p = q.
Proof.
  destruct p as [e d], q as [e' d'].
  intros [Hr (n & Hadj & _)] [Hr' (n' & Hadj' & _)] Heq. simpl in *.
  pose proof (exposed_back st e n d Hr Hadj) as Hb.
  pose proof (exposed_back st e' n' d' Hr' Hadj') as Hb'.
  destruct Hadj as (Hd & Hn & _), Hadj' as (Hd' & Hn' & _).
  rewrite (edge_of_neighbour e n d Hn), (edge_of_neighbour e' n' d' Hn') in Heq.
  injection Heq as Hx Hy Hdir.
  assert (n = n') as <- by (destruct n, n'; simpl in *; congruence).
  rewrite Hdir in Hb. assert (e = e') by congruence.
  assert (d = d') by by apply back_dir_inj.
  congruence.
Qed.

(** The edge list of a trace, read from the side of the filled cells: no
    entry twice, and an entry for exactly the lit sides. *)
Lemma computePerimeter_edges (st : HexGrid) :
  grid_ok st ->
  exists st',
    computePerimeter st = Ret (st', Z.of_nat (length (perimeterEdges st'))) /\
    same_grid st st' /\
    NoDup (perimeterEdges st') /\
    (forall ed, ed ∈ perimeterEdges st' <-> lit st ed).
Proof.
  intros Hok.
  destruct (computePerimeter_spec st Hok)
    as (st' & ps & Hrun & HW & HH & Hg & He & Hnd & Hps & _).
  exists st'. rewrite He, length_fmap. split; [done |]. split; [done |]. split.
  - apply NoDup_fmap_2_strong; [| done].
    intros p q Hp%Hps Hq%Hps. by apply (edge_of_inj st).
  - intros ed. rewrite list_elem_of_fmap. split.
    + intros ([e d] & -> & [Hr (n & Hadj & Hfill)]%Hps). simpl in *.
      pose proof (exposed_back st e n d Hr Hadj) as Hb.
      destruct Hadj as (Hd & Hn & Hin).
      rewrite (edge_of_neighbour e n d Hn). unfold lit. simpl.
      split; [by apply back_dir_range |]. destruct n as [ny nx].
      split; [done |]. split; [done |]. by exists e.
    + intros (Hd & Hin & Hfill & e & Hn & Hr).
      destruct ed as [x y dir]. simpl in *.
      assert (neighbour e (Z.rem (dir + 3) 6) = Ret (y, x)) as Hb.
      { apply neighbour_back; [apply Hin | apply (reach_in_grid _ _ Hr) | done | done]. }
      exists (e, Z.rem (dir + 3) 6). split.
      * rewrite (edge_of_neighbour e (y, x) _ Hb). simpl.
        by rewrite back_dir_back.
      * apply Hps. split; [done |]. exists (y, x). split; [| done].
        split; [by apply back_dir_range |]. by split.
Qed.

(** ** Straight moves *)

(** Moves along a row or a column are moves of the hexagonal adjacency:
    right is direction 0, down is direction 1 or 2 and up direction 5 or 4,
    by the parity of the row. *)
Section Rook.
Variable st : HexGrid.

Lemma reach_right (y x : Z) :
  reach st (y, x) -> in_grid st (y, x + 1) -> ~ filled st (y, x + 1) ->
  reach st (y, x + 1).
Proof.
  intros Hr Hin Hnf. pose proof (reach_in_grid _ _ Hr) as [Hy _]. simpl in Hy.
  apply (reach_step st (y, x) 0); [done | | done].
  split; [lia |]. split; [| done].
  destruct (Z.even y) eqn:He; by neighbour_simpl.
Qed.

Lemma reach_down (y x : Z) :
  reach st (y, x) -> in_grid st (y + 1, x) -> ~ filled st (y + 1, x) ->
  reach st (y + 1, x).
Proof.
  intros Hr Hin Hnf. pose proof (reach_in_grid _ _ Hr) as [Hy _]. simpl in Hy.
  destruct (Z.even y) eqn:He.
  - apply (reach_step st (y, x) 1); [done | | done].
    split; [lia |]. split; [| done]. by neighbour_simpl.
  - apply (reach_step st (y, x) 2); [done | | done].
    split; [lia |]. split; [| done]. by neighbour_simpl.
Qed.

Lemma reach_up (y x : Z) :
  reach st (y, x) -> in_grid st (y - 1, x) -> ~ filled st (y - 1, x) ->
  reach st (y - 1, x).
Proof.
  intros Hr Hin Hnf. pose proof (reach_in_grid _ _ Hr) as [Hy _]. simpl in Hy.
  destruct (Z.even y) eqn:He.
  - apply (reach_step st (y, x) 5); [done | | done].
    split; [lia |]. split; [| done]. by neighbour_simpl.
  - apply (reach_step st (y, x) 4); [done | | done].
    split; [lia |]. split; [| done]. by neighbour_simpl.
Qed.

Lemma reach_run_right (y x k : Z) :
  0 <= k -> reach st (y, x) ->
  (forall i, 0 < i <= k -> in_grid st (y, x + i) /\ ~ filled st (y, x + i)) ->
  reach st (y, x + k).
Proof.
  intros Hk Hr. revert k Hk. apply (natlike_ind (fun k => _ -> reach st (y, x + k))).
  - intros _. by rewrite Z.add_0_r.
  - intros k Hk IH Hfree.
    replace (x + Z.succ k) with (x + k + 1) by lia.
    destruct (Hfree (k + 1)) as [Hin Hnf]; [lia |].
    replace (x + (k + 1)) with (x + k + 1) in Hin, Hnf by lia.
    apply reach_right; [| done | done].
    apply IH. intros i Hi. apply Hfree. lia.
Qed.

Lemma reach_run_down (y x k : Z) :
  0 <= k -> reach st (y, x) ->
  (forall i, 0 < i <= k -> in_grid st (y + i, x) /\ ~ filled st (y + i, x)) ->
  reach st (y + k, x).
Proof.
  intros Hk Hr. revert k Hk. apply (natlike_ind (fun k => _ -> reach st (y + k, x))).
  - intros _. by rewrite Z.add_0_r.
  - intros k Hk IH Hfree.
    replace (y + Z.succ k) with (y + k + 1) by lia.
    destruct (Hfree (k + 1)) as [Hin Hnf]; [lia |].
    replace (y + (k + 1)) with (y + k + 1) in Hin, Hnf by lia.
    apply reach_down; [| done | done].
    apply IH. intros i Hi. apply Hfree. lia.
Qed.

Lemma reach_run_up (y x k : Z) :
  0 <= k -> reach st (y, x) ->
  (forall i, 0 < i <= k -> in_grid st (y - i, x) /\ ~ filled st (y - i, x)) ->
  reach st (y - k, x).
Proof.
  intros Hk Hr. revert k Hk. apply (natlike_ind (fun k => _ -> reach st (y - k, x))).
  - intros _. by rewrite Z.sub_0_r.
  - intros k Hk IH Hfree.
    replace (y - Z.succ k) with (y - k - 1) by lia.
    destruct (Hfree (k + 1)) as [Hin Hnf]; [lia |].
    replace (y - (k + 1)) with (y - k - 1) in Hin, Hnf by lia.
    apply reach_up; [| done | done].
    apply IH. intros i Hi. apply Hfree. lia.
Qed.

Hypothesis Hborder : border_empty st.

(** With the border ring empty, a cell is reached as soon as its column
    is free above it or free below it. *)
Lemma reach_column (c : cell) :
  in_grid st c ->
  (forall y, 0 <= y <= c.1 -> ~ filled st (y, c.2)) \/
  (forall y, c.1 <= y <= H st + 1 -> ~ filled st (y, c.2)) ->
  reach st c.
Proof.
  destruct c as [cy cx]. intros [Hy Hx] Hfree. simpl in *.
  assert (reach st (0, 0)) as H00.
  { apply reach_seed; [unfold in_grid; simpl; lia |].
    apply Hborder; [unfold in_grid; simpl; lia | by left]. }
  destruct Hfree as [Hup | Hdown].
  - assert (reach st (0, cx)) as H0x.
    { replace cx with (0 + cx) by lia. apply reach_run_right; [lia | done |].
      intros i Hi. split; [unfold in_grid; simpl; lia |].
      apply Hborder; [unfold in_grid; simpl; lia | by left]. }
    replace cy with (0 + cy) by lia. apply reach_run_down; [lia | done |].
    intros i Hi. split; [unfold in_grid; simpl; lia |].
    apply Hup. lia.
  - assert (reach st (H st + 1, 0)) as Hb0.
    { replace (H st + 1) with (0 + (H st + 1)) by lia.
      apply reach_run_down; [lia | done |].
      intros i Hi. split; [unfold in_grid; simpl; lia |].
      apply Hborder; [unfold in_grid; simpl; lia | right; right; by left]. }
    assert (reach st (H st + 1, cx)) as Hbx.
    { replace cx with (0 + cx) by lia. apply reach_run_right; [lia | done |].
      intros i Hi. split; [unfold in_grid; simpl; lia |].
      apply Hborder; [unfold in_grid; simpl; lia | right; by left]. }
    replace cy with (H st + 1 - (H st + 1 - cy)) by lia.
    apply reach_run_up; [lia | done |].
    intros i Hi. split; [unfold in_grid; simpl; lia |].
    apply Hdown. lia.
Qed.
End Rook.

(** ** Sample grids are grids *)

Ltac grid_shape :=
  unfold grid_ok, shape; simpl;
  split; [lia |]; split; [lia |]; split; [reflexivity | repeat constructor].

(** Enumerates the cells of a small concrete grid. *)
Ltac small_cases y H :=
  let Hc := fresh "Hc" in
  assert (y = 0 \/ y = 1 \/ y = 2 \/ y = 3 \/ y = 4 \/ y = 5) as Hc
    by (clear - H; simpl in H; lia);
  destruct_or! Hc; subst y; try (exfalso; clear - H; simpl in H; lia).

Lemma lone_cell_ok : grid_ok lone_cell.
Proof. grid_shape. Qed.

Lemma two_cells_ok : grid_ok two_cells.
Proof. grid_shape. Qed.

Lemma flower_ok : grid_ok flower.
Proof. grid_shape. Qed.

Lemma blocked_seed_ok : grid_ok blocked_seed.
Proof. grid_shape. Qed.

Lemma lone_cell_only (c : cell) :
  in_grid lone_cell c -> filled lone_cell c -> c = (2, 2).
Proof.
  destruct c as [y x]. intros [Hy Hx] Hf.
  small_cases y Hy; small_cases x Hx; done.
Qed.

Lemma lone_cell_border : border_empty lone_cell.
Proof.
  intros c Hin Hb Hf. rewrite (lone_cell_only c Hin Hf) in Hb.
  unfold on_border in Hb. simpl in Hb. lia.
Qed.

Lemma two_cells_only (c : cell) :
  in_grid two_cells c -> filled two_cells c -> c = (1, 1) \/ c = (1, 2).
Proof.
  destruct c as [y x]. intros [Hy Hx] Hf.
  small_cases y Hy; small_cases x Hx; first [done | left; done | right; done].
Qed.

(** * The claims *)

(** C1.  On a grid of dimensions (H+2) x (W+2) whose border ring is empty,
    [computePerimeter] returns the number of pairs of an empty cell [e]
    reachable from (0,0) through empty cells and a filled neighbour [f] of
    [e], and the edge list holds exactly one entry
    [{ y: f.row, x: f.col, dir: (d + 3) mod 6 }] per pair, [d] being the
    direction from [e] to [f].  The pairs are listed as [(e, d)]; two of
    them with the same [e] have different [f]. *)
Theorem computePerimeter_counts_exposed_pairs (st : HexGrid) :
  grid_ok st -> border_empty st ->
  exists st' ps,
    computePerimeter st = Ret (st', Z.of_nat (length ps)) /\
    reach st (0, 0) /\
    NoDup ps /\
    (forall e d, (e, d) ∈ ps <->
       reach st e /\ exists f, adj st e d f /\ filled st f) /\
    (forall p q, p ∈ ps -> q ∈ ps ->
       p.1 = q.1 -> neighbour p.1 p.2 = neighbour q.1 q.2 -> p = q) /\
    perimeterEdges st' = edge_of <$> ps /\
    (forall e d, (e, d) ∈ ps ->
       exists f, neighbour e d = Ret f /\
                 edge_of (e, d) = mkEdge f.2 f.1 ((d + 3) `mod` 6)) /\
    NoDup (perimeterEdges st').
Proof.
  intros Hok Hborder.
  destruct (computePerimeter_spec st Hok)
    as (st' & ps & Hrun & _ & _ & _ & He & Hnd & Hps & _).
  exists st', ps. split; [done |]. split.
  { destruct Hok as (? & ? & _).
    apply reach_seed; [unfold in_grid; simpl; lia |].
    apply Hborder; [unfold in_grid; simpl; lia | by left]. }
  split; [done |]. split; [| split; [| split; [done | split]]].
  - intros e d. by rewrite Hps.
  - intros [e d] [e' d'] [Hr (n & (Hd & _) & _)]%Hps [_ (n' & (Hd' & _) & _)]%Hps.
    simpl. intros <- Hn. f_equal.
    eapply neighbour_inj_dir; [apply (reach_in_grid _ _ Hr) | done | done | done].
  - intros e d [_ (f & (Hd & Hn & _) & _)]%Hps. exists f. split; [done |].
    rewrite (edge_of_neighbour e f d Hn). f_equal.
    simpl in Hd. apply Z.rem_mod_nonneg; lia.
  - rewrite He. apply NoDup_fmap_2_strong; [| done].
    intros p q Hp%Hps Hq%Hps. by apply (edge_of_inj st).
Qed.

Lemma computePerimeter_counts_exposed_pairs_witness :
  grid_ok lone_cell /\ border_empty lone_cell /\
  exists st' ps,
    computePerimeter lone_cell = Ret (st', Z.of_nat (length ps)) /\
    perimeterEdges st' = edge_of <$> ps.
Proof.
  split; [exact lone_cell_ok |]. split; [exact lone_cell_border |].
  destruct (computePerimeter_counts_exposed_pairs lone_cell
              lone_cell_ok lone_cell_border)
    as (st' & ps & Hrun & _ & _ & _ & _ & He & _).
  exists st', ps. split; [exact Hrun | exact He].
Defined.

(** C2.  For a cell [(row, col)] and a direction [d] in 0..5, the offset
    the traversal adds is the entry [d] of the specification's table for
    the parity of [row]: [dx] gives Δcol and [dy] gives Δrow. *)
Theorem neighbour_offsets_match_parity_table (row col d : Z) :
  0 <= row -> 0 <= d < 6 ->
  exists dcol drow,
    spec_offsets row !! Z.to_nat d = Some (dcol, drow) /\
    offset dx row d = Ret dcol /\
    offset dy row d = Ret drow /\
    neighbour (row, col) d = Ret (row + drow, col + dcol).
Proof.
  intros Hrow Hd.
  unfold neighbour, offset, spec_offsets. simpl. rewrite (rem2_even row Hrow).
  destruct (Z.even row); dir_cases d; do 2 eexists; repeat split; reflexivity.
Qed.

Lemma neighbour_offsets_match_parity_table_witness :
  0 <= 3 /\ 0 <= 1 < 6 /\
  exists dcol drow,
    spec_offsets 3 !! Z.to_nat 1 = Some (dcol, drow) /\
    offset dx 3 1 = Ret dcol /\
    offset dy 3 1 = Ret drow /\
    neighbour (3, 2) 1 = Ret (3 + drow, 2 + dcol).
Proof.
  split; [lia |]. split; [lia |].
  apply (neighbour_offsets_match_parity_table 3 2 1); lia.
Defined.

(** C3.  In the edge list of one trace no (filled cell, side) pair occurs
    twice, and every entry lies between a filled cell and an empty cell
    reached from the outside: the cell it names is filled, and the cell
    across the side it names is empty and reachable from (0,0). *)
Theorem edges_separate_outside_from_filled (st : HexGrid) :
  grid_ok st ->
  exists st' n,
    computePerimeter st = Ret (st', n) /\
    NoDup (perimeterEdges st') /\
    forall ed, ed ∈ perimeterEdges st' ->
      filled st (edge_y ed, edge_x ed) /\
      exists e, neighbour (edge_y ed, edge_x ed) (edge_dir ed) = Ret e /\
                reach st e /\ ~ filled st e.
Proof.
  intros Hok.
  destruct (computePerimeter_edges st Hok) as (st' & Hrun & _ & Hnd & Hlit).
  exists st', (Z.of_nat (length (perimeterEdges st'))).
  split; [done |]. split; [done |].
  intros ed (_ & _ & Hf & e & Hn & Hr)%Hlit. split; [done |].
  exists e. split; [done |]. split; [done |]. by apply (reach_empty st).
Qed.

Lemma edges_separate_outside_from_filled_witness :
  grid_ok two_cells /\
  exists st' n, computePerimeter two_cells = Ret (st', n) /\
                NoDup (perimeterEdges st').
Proof.
  split; [exact two_cells_ok |].
  destruct (edges_separate_outside_from_filled two_cells two_cells_ok)
    as (st' & n & Hrun & Hnd & _).
  exists st', n. split; [exact Hrun | exact Hnd].
Defined.

(** C7.  A filled cell whose six neighbours are all filled adds nothing to
    the trace: no entry of the edge list names it, whatever the side, and
    the count returned is the number of entries of that list. *)
Theorem enclosed_cell_contributes_nothing (st : HexGrid) (f : cell) :
  grid_ok st -> filled st f ->
  (forall d, 0 <= d < 6 -> exists m, neighbour f d = Ret m /\ filled st m) ->
  exists st' n,
    computePerimeter st = Ret (st', n) /\
    n = Z.of_nat (length (perimeterEdges st')) /\
    forall ed, ed ∈ perimeterEdges st' -> (edge_y ed, edge_x ed) <> f.
Proof.
  intros Hok Hf Hall.
  destruct (computePerimeter_edges st Hok) as (st' & Hrun & _ & _ & Hlit).
  exists st', (Z.of_nat (length (perimeterEdges st'))).
  split; [done |]. split; [done |].
  intros ed (Hd & _ & _ & e & Hn & Hr)%Hlit Heq. rewrite Heq in Hn.
  destruct (Hall _ Hd) as (m & Hm & Hfm).
  assert (m = e) as -> by congruence.
  by apply (reach_empty st e).
Qed.

Lemma enclosed_cell_contributes_nothing_witness :
  grid_ok flower /\ filled flower (2, 2) /\
  exists st' n,
    computePerimeter flower = Ret (st', n) /\
    forall ed, ed ∈ perimeterEdges st' -> (edge_y ed, edge_x ed) <> (2, 2).
Proof.
  split; [exact flower_ok |]. split; [reflexivity |].
  destruct (enclosed_cell_contributes_nothing flower (2, 2) flower_ok)
    as (st' & n & Hrun & _ & Hnone).
  - reflexivity.
  - intros d Hd. dir_cases d; eexists; (split; [reflexivity | reflexivity]).
  - exists st', n. split; [exact Hrun | exact Hnone].
Defined.

(** C8.  [computePerimeter] is a function of the dimensions and the grid
    alone, and a second call right after the first returns the same count
    and leaves the same edge list (indeed the same state). *)
Theorem computePerimeter_idempotent (st : HexGrid) :
  grid_ok st ->
  (forall st2, same_grid st st2 -> computePerimeter st2 = computePerimeter st) /\
  exists st' n,
    computePerimeter st = Ret (st', n) /\
    computePerimeter st' = Ret (st', n).
Proof.
  intros Hok. split; [apply computePerimeter_ext |].
  destruct (computePerimeter_spec st Hok) as (st' & ps & Hrun & HW & HH & Hg & _).
  exists st', (Z.of_nat (length ps)). split; [done |].
  by rewrite (computePerimeter_ext st st').
Qed.

Lemma computePerimeter_idempotent_witness :
  grid_ok two_cells /\
  exists st' n,
    computePerimeter two_cells = Ret (st', n) /\
    computePerimeter st' = Ret (st', n).
Proof.
  split; [exact two_cells_ok |].
  exact (proj2 (computePerimeter_idempotent two_cells two_cells_ok)).
Defined.

(** A deeper stack changes nothing: what [dfs] returns within some depth
    it returns within any greater depth. *)
Lemma for_each_mono {A S : Type} (body1 body2 : A -> S -> outcome S)
    (vs : list A) (s s' : S) :
  (forall v t t', body1 v t = Ret t' -> body2 v t = Ret t') ->
  for_each body1 vs s = Ret s' -> for_each body2 vs s = Ret s'.
Proof.
  intros Hbody. revert s. induction vs as [| v vs IH]; intros s; simpl; [done |].
  destruct (body1 v s) as [t | |] eqn:Hb; cbn [mbind outcome_bind]; [| done | done].
  rewrite (Hbody v s t Hb). cbn [mbind outcome_bind]. apply IH.
Qed.

Lemma dfs_more_fuel (fuel : nat) (y x : Z) (s s' : HexGrid * Z) :
  dfs fuel y x s = Ret s' -> dfs (S fuel) y x s = Ret s'.
Proof.
  revert y x s s'. induction fuel as [| fuel IH]; intros y x s s'; [done |].
  rewrite (dfs_unfold fuel), (dfs_unfold (S fuel)).
  destruct (at2 (grid s.1) y x) as [c | |]; cbn [mbind outcome_bind]; [| done | done].
  destruct (is_one c); [done |].
  destruct (at2 (isVisited s.1) y x) as [v | |]; cbn [mbind outcome_bind];
    [| done | done].
  destruct (truthy v); [done |].
  destruct (store2 (isVisited s.1) y x true) as [vis | |]; cbn [mbind outcome_bind];
    [| done | done].
  apply for_each_mono. intros d t t'. unfold probe.
  destruct (offset dy y d) as [oy | |]; cbn [mbind outcome_bind]; [| done | done].
  destruct (offset dx y d) as [ox | |]; cbn [mbind outcome_bind]; [| done | done].
  destruct (out_of_bounds t.1 (y + oy) (x + ox)); [done |].
  destruct (at2 (grid t.1) (y + oy) (x + ox)) as [c' | |]; cbn [mbind outcome_bind];
    [| done | done].
  destruct (is_one c'); [done |]. apply IH.
Qed.

Lemma dfs_fuel_le (fuel fuel' : nat) (y x : Z) (s s' : HexGrid * Z) :
  (fuel <= fuel')%nat -> dfs fuel y x s = Ret s' -> dfs fuel' y x s = Ret s'.
Proof.
  induction 1 as [| fuel' _ IH]; [done |].
  intros Hrun. by apply dfs_more_fuel, IH.
Qed.

Lemma computePerimeter_start (st : HexGrid) :
  grid_ok st -> computePerimeter st = dfs (dfs_fuel st) 0 0 (trace_start st).
Proof.
  intros (HH & HW & _). unfold computePerimeter.
  rewrite alloc2_ok by lia. by rewrite bind_Ret.
Qed.

(** C9 as the code has it.  On every (H+2) x (W+2) grid that has its seed
    cell (H, W >= -1), border invariant or not, [computePerimeter] raises
    no error of its own: its recursion is at most (H+2)(W+2)+1 calls deep
    (any deeper stack gives the same result) and, given that much stack,
    it returns; every entry of its edge list is a side lit from a cell
    reachable from (0,0), so that filled regions out of reach are left
    out; if cell (0,0) is filled the count is 0 and the edge list empty. *)
Theorem computePerimeter_returns_on_grids (st : HexGrid) :
  grid_ok st ->
  exists st' n,
    computePerimeter st = Ret (st', n) /\
    (forall depth, (dfs_fuel st <= depth)%nat ->
       dfs depth 0 0 (trace_start st) = Ret (st', n)) /\
    n = Z.of_nat (length (perimeterEdges st')) /\
    (forall ed, ed ∈ perimeterEdges st' <-> lit st ed) /\
    (filled st (0, 0) -> n = 0 /\ perimeterEdges st' = []).
Proof.
  intros Hok.
  destruct (computePerimeter_edges st Hok) as (st' & Hrun & _ & _ & Hlit).
  exists st', (Z.of_nat (length (perimeterEdges st'))).
  split; [done |]. split.
  { intros depth Hdepth. apply (dfs_fuel_le (dfs_fuel st)); [done |].
    by rewrite <- computePerimeter_start. }
  split; [done |]. split; [done |].
  intros Hseed.
  assert (forall e, ~ reach st e) as Hnone.
  { intros e Hr. induction Hr; done. }
  assert (perimeterEdges st' = []) as ->.
  { destruct (perimeterEdges st') as [| ed es]; [done |].
    destruct (proj1 (Hlit ed)) as (_ & _ & _ & e & _ & Hr); [by left |].
    by apply Hnone in Hr. }
  done.
Qed.

Lemma computePerimeter_returns_on_grids_witness :
  grid_ok blocked_seed /\ filled blocked_seed (0, 0) /\
  exists st', computePerimeter blocked_seed = Ret (st', 0) /\
              perimeterEdges st' = [].
Proof.
  split; [exact blocked_seed_ok |]. split; [reflexivity |].
  destruct (computePerimeter_returns_on_grids blocked_seed blocked_seed_ok)
    as (st' & n & Hrun & _ & _ & _ & Hzero).
  destruct Hzero as [-> He]; [reflexivity |].
  exists st'. split; [exact Hrun | exact He].
Defined.

(** A matrix without rows has no cell (0,0): the first read of [dfs]
    throws.  Such a state is not a grid in the sense of [grid_ok]. *)
Example computePerimeter_no_rows :
  computePerimeter (mkHexGrid 3 (-2) [] [] []) = Raise TypeError.
Proof. reflexivity. Qed.

(** C9 as stated fails: [computePerimeter] does raise an error on the
    state that a text with the header [3 -2] leaves behind, a grid
    without rows: the read of [this.grid[0][0]] throws a [TypeError], in
    the redraw of the load and in every later trace. *)
Lemma computePerimeter_raises_without_rows :
  rejected (computePerimeter (mkHexGrid 3 (-2) [] [] [])) /\
  computePerimeter (mkHexGrid 3 (-2) [] [] []) = Raise TypeError /\
  loadFromInput [[3; -2]; [1]] blank = Raise TypeError.
Proof.
  split; [exists TypeError; reflexivity |].
  split; reflexivity.
Qed.

(** ** Grids with few buildings *)

Lemma neighbour_near (c n : cell) (d : Z) :
  0 <= c.1 -> 0 <= d < 6 -> neighbour c d = Ret n ->
  c.1 - 1 <= n.1 <= c.1 + 1 /\ c.2 - 1 <= n.2 <= c.2 + 1 /\ n <> c.
Proof.
  destruct c as [y x], n as [ny nx]. simpl. intros Hy Hd Hn.
  destruct (Z.even y) eqn:He; neighbour_simpl;
    dir_cases d; simplify_eq/=; (split; [lia |]; split; [lia |]);
    intros Heq; inversion Heq; lia.
Qed.

(** If no empty cell stands in its column between two buildings, the fill
    reaches every empty cell. *)
Lemma reach_all (st : HexGrid) :
  border_empty st ->
  (forall c y1 y2, in_grid st c -> ~ filled st c ->
     filled st (y1, c.2) -> filled st (y2, c.2) -> ~ (y1 < c.1 < y2)) ->
  forall c, in_grid st c -> ~ filled st c -> reach st c.
Proof.
  intros Hborder Hsparse [cy cx] Hin Hnf.
  apply reach_column; [done | done |]. simpl.
  destruct (decide (Exists (fun y => filled st (y, cx)) (seqZ 0 (cy + 1))))
    as [Hex | Hnex].
  - right. intros y2 Hy2 Hf2.
    apply Exists_exists in Hex as (y1 & Hy1%elem_of_seqZ & Hf1).
    apply (Hsparse (cy, cx) y1 y2 Hin Hnf Hf1 Hf2). simpl.
    assert (y1 <> cy) by (intros ->; done).
    assert (y2 <> cy) by (intros ->; done).
    lia.
  - left. intros y Hy Hf. apply Hnex. apply Exists_exists.
    exists y. split; [| done]. apply elem_of_seqZ. lia.
Qed.

(** When the lit sides are the entries of a duplicate-free list [L], the
    trace returns the length of [L] and its edge list is [L] in some
    order. *)
Lemma edges_permutation (st : HexGrid) (L : list PerimeterEdge) :
  grid_ok st -> NoDup L -> (forall ed, lit st ed <-> ed ∈ L) ->
  exists st',
    computePerimeter st = Ret (st', Z.of_nat (length L)) /\
    (perimeterEdges st' ≡ₚ L).
Proof.
  intros Hok HL Hlit.
  destruct (computePerimeter_edges st Hok) as (st' & Hrun & _ & Hnd & Hed).
  assert (perimeterEdges st' ≡ₚ L) as Hperm.
  { apply NoDup_Permutation; [done | done |].
    intros ed. by rewrite Hed, Hlit. }
  exists st'. split; [| done]. by rewrite <- Hperm.
Qed.

Lemma elem_of_sides (row col : Z) (ed : PerimeterEdge) :
  ed ∈ sides row col <->
  edge_y ed = row /\ edge_x ed = col /\ 0 <= edge_dir ed < 6.
Proof.
  unfold sides. rewrite list_elem_of_fmap. split.
  - intros (s & -> & Hs%elem_of_seqZ). simpl. lia.
  - intros (<- & <- & Hd). exists (edge_dir ed).
    split; [by destruct ed | apply elem_of_seqZ; lia].
Qed.

Lemma elem_of_sides_but (row col d : Z) (ed : PerimeterEdge) :
  ed ∈ sides_but row col d <->
  edge_y ed = row /\ edge_x ed = col /\ 0 <= edge_dir ed < 6 /\ edge_dir ed <> d.
Proof.
  unfold sides_but. rewrite list_elem_of_fmap. split.
  - intros (s & -> & [Hne Hs%elem_of_seqZ]%list_elem_of_filter). simpl.
    repeat split; (done || lia).
  - intros (<- & <- & Hd & Hne). exists (edge_dir ed).
    split; [by destruct ed |].
    apply list_elem_of_filter. split; [done | apply elem_of_seqZ; lia].
Qed.

Lemma mkEdge_inj (row col : Z) : Inj (=) (=) (fun s => mkEdge col row s).
Proof. intros s1 s2 Heq. by injection Heq. Qed.

Lemma NoDup_sides (row col : Z) : NoDup (sides row col).
Proof. apply (NoDup_fmap_2 _ (Inj0 := mkEdge_inj row col)), NoDup_seqZ. Qed.

Lemma NoDup_sides_but (row col d : Z) : NoDup (sides_but row col d).
Proof.
  apply (NoDup_fmap_2 _ (Inj0 := mkEdge_inj row col)), NoDup_filter, NoDup_seqZ.
Qed.

Lemma length_sides_but (row col d : Z) :
  0 <= d < 6 -> length (sides_but row col d) = 5%nat.
Proof. intros Hd. dir_cases d; reflexivity. Qed.

Lemma filled_in_grid (st : HexGrid) (c : cell) :
  grid_ok st -> filled st c -> in_grid st c.
Proof.
  intros (_ & _ & Hrows & Hall). unfold filled, at2.
  destruct (js_get (grid st) c.1) as [r |] eqn:Hr; [| done].
  intros [= Hx].
  pose proof (js_get_bound _ _ _ Hr) as Hy.
  pose proof (js_get_bound _ _ _ Hx) as Hx'.
  rewrite js_get_lookup in Hr by lia.
  pose proof (Forall_lookup_1 _ _ _ _ Hall Hr) as Hlen. simpl in Hlen.
  unfold in_grid. lia.
Qed.

(** C5.  With W, H >= 3 and a single filled cell that does not touch the
    content border, [computePerimeter] returns 6 and the edge list is, in
    some order, the six sides 0..5 of that cell. *)
Theorem single_cell_has_six_edges (st : HexGrid) (row col : Z) :
  grid_ok st -> 3 <= W st -> 3 <= H st ->
  2 <= row <= H st - 1 -> 2 <= col <= W st - 1 ->
  (forall c, in_grid st c -> (filled st c <-> c = (row, col))) ->
  exists st',
    computePerimeter st = Ret (st', 6) /\
    (perimeterEdges st' ≡ₚ sides row col).
Proof.
  intros Hok HW HH Hrow Hcol Honly.
  assert (in_grid st (row, col)) as Hfin by (unfold in_grid; simpl; lia).
  assert (filled st (row, col)) as Hff by by apply Honly.
  assert (border_empty st) as Hborder.
  { intros c Hin Hb Hf. apply Honly in Hf; [| done]. subst c.
    unfold on_border in Hb. simpl in Hb. lia. }
  assert (forall c, in_grid st c -> ~ filled st c -> reach st c) as Hall.
  { apply reach_all; [done |].
    intros c y1 y2 Hin Hnf Hf1 Hf2 Hbetween.
    pose proof (filled_in_grid st _ Hok Hf1) as Hin1.
    pose proof (filled_in_grid st _ Hok Hf2) as Hin2.
    apply Honly in Hf1; [| done]. apply Honly in Hf2; [| done].
    simplify_eq. lia. }
  change 6 with (Z.of_nat (length (sides row col))).
  apply edges_permutation; [done | apply NoDup_sides |].
  intros ed. rewrite elem_of_sides. split.
  - intros (Hd & Hin & Hf & _). apply Honly in Hf; [| done].
    by injection Hf as -> ->.
  - intros (Hy & Hx & Hd). destruct ed as [x y dir]; simpl in *; subst.
    split; [done |]. split; [done |]. split; [done |].
    destruct (neighbour_total (row, col) dir) as [e He]; [simpl; lia | done |].
    exists e. split; [done |].
    destruct (neighbour_near (row, col) e dir) as (Hy & Hx & Hne);
      [simpl; lia | done | done |]. simpl in Hy, Hx.
    assert (in_grid st e) as Hine by (unfold in_grid; lia).
    apply Hall; [done |]. intros Hfe. by apply Honly in Hfe.
Qed.

Lemma single_cell_has_six_edges_witness :
  grid_ok lone_cell /\
  exists st',
    computePerimeter lone_cell = Ret (st', 6) /\
    (perimeterEdges st' ≡ₚ sides 2 2).
Proof.
  split; [exact lone_cell_ok |].
  apply (single_cell_has_six_edges lone_cell 2 2 lone_cell_ok);
    [simpl; lia | simpl; lia | simpl; lia | simpl; lia |].
  intros c Hin. split; [exact (lone_cell_only c Hin) | intros ->; reflexivity].
Defined.

(** C6.  With exactly two filled cells, both content cells and adjacent
    under the parity table (so the border ring is empty),
    [computePerimeter] returns 10; the edge list is, in some order, the
    five sides of each cell that do not face the other, and neither of the
    two mutually facing sides occurs in it. *)
Theorem adjacent_pair_has_ten_edges (st : HexGrid) (f1 f2 : cell) (d : Z) :
  grid_ok st ->
  1 <= f1.1 <= H st -> 1 <= f1.2 <= W st ->
  1 <= f2.1 <= H st -> 1 <= f2.2 <= W st ->
  0 <= d < 6 -> neighbour f1 d = Ret f2 ->
  (forall c, in_grid st c -> (filled st c <-> c = f1 \/ c = f2)) ->
  exists st',
    computePerimeter st = Ret (st', 10) /\
    (perimeterEdges st' ≡ₚ
       sides_but f1.1 f1.2 d ++ sides_but f2.1 f2.2 (Z.rem (d + 3) 6)) /\
    (mkEdge f1.2 f1.1 d ∉ perimeterEdges st') /\
    (mkEdge f2.2 f2.1 (Z.rem (d + 3) 6) ∉ perimeterEdges st').
Proof.
  intros Hok Hy1 Hx1 Hy2 Hx2 Hd H12 Honly.
  set (L := sides_but f1.1 f1.2 d ++ sides_but f2.1 f2.2 (Z.rem (d + 3) 6)).
  assert (in_grid st f1) as Hin1 by (unfold in_grid; lia).
  assert (in_grid st f2) as Hin2 by (unfold in_grid; lia).
  assert (filled st f1) as Hf1 by (apply Honly; [done | by left]).
  assert (filled st f2) as Hf2 by (apply Honly; [done | by right]).
  destruct (neighbour_near f1 f2 d) as (Hny & Hnx & Hne); [lia | done | done |].
  assert (neighbour f2 (Z.rem (d + 3) 6) = Ret f1) as H21.
  { apply (neighbour_back f1 f2 d); (done || lia). }
  pose proof (back_dir_range d Hd) as Hbd.
  assert (border_empty st) as Hborder.
  { intros c Hin Hb Hf. unfold on_border in Hb.
    apply Honly in Hf as [-> | ->]; [lia | lia | done]. }
  assert (forall c, in_grid st c -> ~ filled st c -> reach st c) as Hall.
  { apply reach_all; [done |].
    intros c y1 y2 Hin Hnf Hfa Hfb Hbetween.
    pose proof (filled_in_grid st _ Hok Hfa) as Hina.
    pose proof (filled_in_grid st _ Hok Hfb) as Hinb.
    apply Honly in Hfa; [| done]. apply Honly in Hfb; [| done].
    destruct f1 as [a1 b1], f2 as [a2 b2]. simpl in *.
    destruct Hfa as [[= -> ?] | [= -> ?]], Hfb as [[= -> ?] | [= -> ?]]; lia. }
  assert (forall f s e, (f = f1 \/ f = f2) -> 0 <= s < 6 ->
            neighbour f s = Ret e -> e <> f1 -> e <> f2 -> reach st e) as Hside.
  { intros f s e Hf Hs He Hne1 Hne2.
    assert (in_grid st f) as Hinf by (by destruct Hf as [-> | ->]).
    destruct (neighbour_near f e s) as (Hey & Hex & _); [apply Hinf | done | done |].
    assert (in_grid st e) as Hine.
    { unfold in_grid. destruct Hf as [-> | ->]; lia. }
    apply Hall; [done |]. intros Hfe. apply Honly in Hfe as [? | ?]; done. }
  assert (forall ed, lit st ed <-> ed ∈ L) as Hlit.
  { intros ed. unfold L. rewrite elem_of_app, !elem_of_sides_but. split.
    - intros (Hs & Hin & Hf & e & He & Hr).
      pose proof (reach_empty st e Hr) as Hnfe.
      apply Honly in Hf as [Hf | Hf]; [| | done].
      + left. rewrite <- Hf. simpl. repeat split; try (done || lia).
        intros Heq. rewrite Hf, Heq in He. congruence.
      + right. rewrite <- Hf. simpl. repeat split; try (done || lia).
        intros Heq. rewrite Hf, Heq in He. congruence.
    - destruct ed as [x y s]. simpl.
      intros [(-> & -> & Hs & Hne') | (-> & -> & Hs & Hne')].
      + replace (f1.1, f1.2) with f1 by by destruct f1.
        destruct (neighbour_total f1 s) as [e He]; [lia | done |].
        split; [done |]. split; [done |]. split; [done |].
        exists e. split; [done |].
        apply (Hside f1 s e); [by left | done | done | |].
        * by destruct (neighbour_near f1 e s) as (_ & _ & ?); [lia | done | done |].
        * intros ->. apply Hne'.
          apply (neighbour_inj_dir f1 s d); [lia | done | done | congruence].
      + replace (f2.1, f2.2) with f2 by by destruct f2.
        destruct (neighbour_total f2 s) as [e He]; [lia | done |].
        split; [done |]. split; [done |]. split; [done |].
        exists e. split; [done |].
        apply (Hside f2 s e); [by right | done | done | |].
        * intros ->. apply Hne'.
          apply (neighbour_inj_dir f2 s (Z.rem (d + 3) 6));
            [lia | done | done | congruence].
        * by destruct (neighbour_near f2 e s) as (_ & _ & ?); [lia | done | done |]. }
  assert (NoDup L) as HL.
  { apply NoDup_app. split; [apply NoDup_sides_but |].
    split; [| apply NoDup_sides_but].
    intros ed (Hy & Hx & _)%elem_of_sides_but (Hy' & Hx' & _)%elem_of_sides_but.
    apply Hne. destruct f1, f2. simpl in *. congruence. }
  destruct (edges_permutation st L Hok HL Hlit) as (st' & Hrun & Hperm).
  exists st'. split; [| split; [done | split]].
  - rewrite Hrun. unfold L. rewrite length_app, !length_sides_but by done. done.
  - rewrite Hperm. unfold L. rewrite elem_of_app, !elem_of_sides_but. simpl.
    intros [(_ & _ & _ & ?) | (Hy & Hx & _)]; [done |].
    apply Hne. destruct f1, f2. simpl in *. congruence.
  - rewrite Hperm. unfold L. rewrite elem_of_app, !elem_of_sides_but. simpl.
    intros [(Hy & Hx & _) | (_ & _ & _ & ?)]; [| done].
    apply Hne. destruct f1, f2. simpl in *. congruence.
Qed.

Lemma adjacent_pair_has_ten_edges_witness :
  grid_ok two_cells /\ neighbour (1, 1) 0 = Ret (1, 2) /\
  exists st',
    computePerimeter two_cells = Ret (st', 10) /\
    (mkEdge 1 1 0 ∉ perimeterEdges st') /\
    (mkEdge 2 1 3 ∉ perimeterEdges st').
Proof.
  split; [exact two_cells_ok |]. split; [reflexivity |].
  destruct (adjacent_pair_has_ten_edges two_cells (1, 1) (1, 2) 0 two_cells_ok)
    as (st' & Hrun & _ & Hno1 & Hno2);
    [simpl; lia | simpl; lia | simpl; lia | simpl; lia | lia | reflexivity | |].
  - intros c Hin. split; [exact (two_cells_only c Hin) |].
    intros [-> | ->]; reflexivity.
  - exists st'. split; [exact Hrun |]. split; [exact Hno1 | exact Hno2].
Defined.

(** ** Operations on the grid *)

Lemma border_empty_same_grid (st st' : HexGrid) :
  same_grid st st' -> border_empty st -> border_empty st'.
Proof.
  intros (HW & HH & Hg) Hb c Hin Hon.
  unfold filled. rewrite Hg. apply Hb.
  - unfold in_grid in *. by rewrite <- HW, <- HH.
  - unfold on_border in *. by rewrite <- HW, <- HH.
Qed.

Lemma grid_ok_same_grid (st st' : HexGrid) :
  same_grid st st' -> grid_ok st -> grid_ok st'.
Proof. intros (HW & HH & Hg). unfold grid_ok. by rewrite HW, HH, Hg. Qed.

Lemma draw_same_grid (st st' : HexGrid) : draw st = Ret st' -> same_grid st st'.
Proof.
  unfold draw. destruct (computePerimeter st) as [[st1 n] | |] eqn:Hrun;
    cbn [mbind outcome_bind]; [| done | done].
  destruct (draw_hexagons (st1, n).1) as [u | |]; cbn [mbind outcome_bind];
    [| done | done].
  intros [= <-]. by apply computePerimeter_same_grid in Hrun.
Qed.

(** On a well-shaped grid every read of the hexagon loop finds its row. *)
Lemma draw_hexagons_ok (st : HexGrid) : grid_ok st -> draw_hexagons st = Ret tt.
Proof.
  intros Hok. unfold draw_hexagons.
  destruct (for_each_total (fun _ : unit => True)
              (fun y u =>
                 for_each (fun x u => c ← at2 (grid st) y x; Ret u)
                   (seqZ 1 (W st)) u)
              (seqZ 1 (H st)) tt) as ([] & Hrun & _); [| done | done].
  intros y u Hy%elem_of_seqZ _.
  apply (for_each_total (fun _ : unit => True)); [| done].
  intros x u' Hx%elem_of_seqZ _.
  destruct (grid_ok_cell st (y, x) Hok) as [v Hv]; [unfold in_grid; simpl; lia |].
  simpl in Hv. rewrite Hv. by exists u'.
Qed.

Lemma draw_total (st : HexGrid) : grid_ok st -> exists st', draw st = Ret st'.
Proof.
  intros Hok.
  destruct (computePerimeter_spec st Hok) as (st' & ps & Hrun & HW & HH & Hg & _).
  exists st'. unfold draw. rewrite Hrun. cbn [mbind outcome_bind fst].
  rewrite draw_hexagons_ok; [done |].
  by apply (grid_ok_same_grid st).
Qed.

(** A write changes no other entry, whatever the shape of the matrix. *)
Lemma store2_other {A : Type} (m m' : list (list A)) (y x y' x' : Z) (v : A) :
  store2 m y x v = Ret m' -> (y', x') <> (y, x) -> at2 m' y' x' = at2 m y' x'.
Proof.
  unfold store2. destruct (js_get m y) as [r |] eqn:Hr; [| done].
  pose proof (js_get_bound _ _ _ Hr) as Hy.
  destruct (js_set r x v) as [r' |] eqn:Hset; [| done].
  rewrite (js_set_inside m) by done. intros [= <-] Hne. unfold at2.
  destruct (decide (y' = y)) as [-> | Hy']; [| by rewrite js_get_insert_ne by lia].
  rewrite js_get_insert_eq by done. rewrite Hr. f_equal.
  assert (x' <> x) as Hx' by congruence.
  unfold js_set in Hset. repeat case_decide; simplify_eq.
  - by apply js_get_insert_ne; [lia |].
  - unfold js_get. case_decide; [| done].
    destruct (decide (x' < Z.of_nat (length r))).
    + apply lookup_app_l. lia.
    + rewrite !lookup_ge_None_2; [done | lia | rewrite length_app; simpl; lia].
Qed.

(** Nothing is filled in a freshly allocated grid. *)
Lemma alloc2_empty (rows cols : Z) (g : list (list Z)) (y x : Z) :
  alloc2 rows cols 0 = Ret g -> at2 g y x <> Ret (Some 1).
Proof.
  unfold alloc2. case_decide.
  - intros [= <-]. unfold at2, js_get. by case_decide.
  - case_decide; [done |]. intros [= <-].
    unfold at2, js_get. case_decide; [| done].
    destruct (replicate _ _ !! _) as [r |] eqn:Hr; [| done].
    apply lookup_replicate in Hr as [-> _].
    case_decide; [| done].
    destruct (replicate _ _ !! _) as [b |] eqn:Hb; [| done].
    by apply lookup_replicate in Hb as [-> _].
Qed.

Lemma foldl_inv {A B : Type} (P : B -> Prop) (f : B -> A -> B) (l : list A) (b : B) :
  (forall b' a, a ∈ l -> P b' -> P (f b' a)) -> P b -> P (foldl f b l).
Proof.
  revert b. induction l as [| a l IH]; intros b Hf Hb; simpl; [done |].
  apply IH.
  - intros b' a' Ha'. apply Hf. by right.
  - apply Hf; [by left | done].
Qed.

(** [bestPos], when set, is a content cell. *)
Lemma pick_content {D : Type} (ltD : D -> D -> bool) (hexSize infinity : D)
    (dist : Z -> Z -> D) (st : HexGrid) (x y : Z) :
  (pick ltD hexSize infinity dist st).2 = Some (x, y) ->
  1 <= y <= H st /\ 1 <= x <= W st.
Proof.
  set (P := fun acc : D * option (Z * Z) =>
              forall x y, acc.2 = Some (x, y) -> 1 <= y <= H st /\ 1 <= x <= W st).
  assert (P (pick ltD hexSize infinity dist st)) as HP; [| by apply HP].
  unfold pick. apply foldl_inv; [| done].
  intros acc y' Hy'%elem_of_seqZ Hacc.
  apply foldl_inv; [| done].
  intros acc' x' Hx'%elem_of_seqZ Hacc'.
  destruct (ltD (dist x' y') hexSize && ltD (dist x' y') acc'.1); [| done].
  intros ? ? [= <- <-]. lia.
Qed.

Lemma initEmptyGrid_empty (Wn Hn : Z) (st st' : HexGrid) :
  initEmptyGrid Wn Hn st = Ret st' -> forall c, ~ filled st' c.
Proof.
  unfold initEmptyGrid, resizeCanvas.
  destruct (alloc2 (Hn + 2) (Wn + 2) 0) as [g | |] eqn:Hg;
    cbn [mbind outcome_bind]; [| done | done].
  intros (_ & _ & Hgrid)%draw_same_grid c. unfold filled. rewrite Hgrid. simpl.
  by eapply alloc2_empty.
Qed.

Lemma initEmptyGrid_total (Wn Hn : Z) (st : HexGrid) :
  -1 <= Wn -> -1 <= Hn ->
  exists st',
    initEmptyGrid Wn Hn st = Ret st' /\ W st' = Wn /\ H st' = Hn /\
    grid st' = replicate (Z.to_nat (Hn + 2)) (replicate (Z.to_nat (Wn + 2)) 0) /\
    grid_ok st'.
Proof.
  intros HW HH. unfold initEmptyGrid, resizeCanvas.
  rewrite alloc2_ok by lia. rewrite bind_Ret.
  set (st1 := set_grid st Wn Hn _).
  assert (grid_ok st1) as Hok1.
  { split; [done |]. split; [done |]. unfold st1; simpl. apply shape_replicate; lia. }
  destruct (draw_total st1 Hok1) as (st' & Hdraw).
  pose proof (draw_same_grid _ _ Hdraw) as Hsame.
  exists st'. split; [done |].
  pose proof Hsame as (HW' & HH' & Hg').
  split; [done |]. split; [done |]. split; [done |].
  by apply (grid_ok_same_grid st1).
Qed.

Section ClickProofs.
Context {D : Type} (ltD : D -> D -> bool) (hexSize infinity : D).
Variable dist : Z -> Z -> D.

Lemma handleClick_border (st st' : HexGrid) :
  border_empty st ->
  handleClick ltD hexSize infinity dist st = Ret st' ->
  border_empty st'.
Proof.
  intros Hb. unfold handleClick.
  destruct (pick ltD hexSize infinity dist st).2 as [[x y] |] eqn:Hpick;
    [| by intros [= <-]].
  apply pick_content in Hpick as [Hy Hx].
  destruct (at2 (grid st) y x) as [[v |] | |]; cbn [mbind outcome_bind];
    [| done | done | done].
  destruct (store2 (grid st) y x (to_double (1 - v))) as [g | |] eqn:Hst;
    cbn [mbind outcome_bind]; [| done | done].
  intros Hsame%draw_same_grid.
  apply (border_empty_same_grid _ _ Hsame).
  intros [cy cx] Hin Hon. unfold filled. simpl.
  rewrite (store2_other _ _ _ _ _ _ _ Hst).
  - by apply (Hb (cy, cx)).
  - unfold on_border in Hon. simpl in Hon. intros [= -> ->]. lia.
Qed.

Lemma handleClick_total (st : HexGrid) :
  grid_ok st ->
  exists st', handleClick ltD hexSize infinity dist st = Ret st' /\ grid_ok st'.
Proof.
  intros Hok. unfold handleClick.
  destruct (pick ltD hexSize infinity dist st).2 as [[x y] |] eqn:Hpick;
    [| by exists st].
  apply pick_content in Hpick as [Hy Hx].
  pose proof Hok as (HH & HW & Hsh).
  destruct (shape_at2 (grid st) _ _ y x Hsh) as [v Hv]; [lia | lia |].
  rewrite Hv. cbn [mbind outcome_bind].
  destruct (shape_store2 (grid st) _ _ y x (to_double (1 - v)) Hsh) as (g & Hst & Hsh' & _);
    [lia | lia |].
  rewrite Hst. cbn [mbind outcome_bind].
  set (st1 := set_grid st (W st) (H st) g).
  assert (grid_ok st1) as Hok1 by done.
  destruct (draw_total st1 Hok1) as (st' & Hdraw).
  exists st'. split; [done |].
  apply (grid_ok_same_grid st1); [| done]. by apply draw_same_grid.
Qed.
End ClickProofs.

(** The loops of [loadFromInput] write content cells only. *)
Lemma load_rows_border (st : HexGrid) (lines : list (list Z)) (Wn Hn : Z)
    (g0 g : list (list Z)) :
  border_empty (set_grid st Wn Hn g0) ->
  for_each
    (fun i g =>
       match js_get lines i with
       | None => Raise TypeError
       | Some rowData =>
           for_each
             (fun j g => store2 g i j (or_zero (js_get rowData (j - 1))))
             (seqZ 1 Wn) g
       end)
    (seqZ 1 Hn) g0 = Ret g ->
  border_empty (set_grid st Wn Hn g).
Proof.
  intros Hb0.
  apply (for_each_inv (fun g => border_empty (set_grid st Wn Hn g))); [| done].
  intros i g1 g2 Hi%elem_of_seqZ Hb1.
  destruct (js_get lines i) as [rowData |]; [| done].
  apply (for_each_inv (fun g => border_empty (set_grid st Wn Hn g))); [| done].
  intros j g3 g4 Hj%elem_of_seqZ Hb3 Hst.
  intros [cy cx] Hin Hon. unfold filled. simpl.
  rewrite (store2_other _ _ _ _ _ _ _ Hst).
  - by apply (Hb3 (cy, cx)).
  - unfold on_border in Hon. simpl in Hon. intros [= -> ->]. lia.
Qed.

Lemma loadFromInput_border (lines : list (list Z)) (st st' : HexGrid) :
  border_empty st -> loadFromInput lines st = Ret st' -> border_empty st'.
Proof.
  intros Hb. unfold loadFromInput. case_decide; [by intros [= <-] |].
  destruct lines as [| [| Wn [| Hn rest]] rows]; [done | done | done |].
  destruct (alloc2 (Hn + 2) (Wn + 2) 0) as [g0 | |] eqn:Hg0;
    cbn [mbind outcome_bind]; [| done | done].
  destruct (for_each _ (seqZ 1 Hn) g0) as [g | |] eqn:Hloop;
    cbn [mbind outcome_bind]; [| done | done].
  unfold resizeCanvas. intros Hsame%draw_same_grid.
  apply (border_empty_same_grid _ _ Hsame).
  apply (load_rows_border st ((Wn :: Hn :: rest) :: rows) Wn Hn g0 g); [| done].
  intros c _ _. unfold filled. simpl. by eapply alloc2_empty.
Qed.

(** A header [W H] with [W, H >= -1] followed by at least [H] rows loads. *)
Lemma loadFromInput_total (Wn Hn : Z) (rest : list Z) (rows : list (list Z))
    (st : HexGrid) :
  -1 <= Wn -> -1 <= Hn -> Hn <= Z.of_nat (length rows) -> rows <> [] ->
  exists st',
    loadFromInput ((Wn :: Hn :: rest) :: rows) st = Ret st' /\
    W st' = Wn /\ H st' = Hn /\ grid_ok st' /\ border_empty st'.
Proof.
  intros HW HH Hrows Hne.
  set (lines := (Wn :: Hn :: rest) :: rows).
  assert (exists g,
    for_each
      (fun i g =>
         match js_get lines i with
         | None => Raise TypeError
         | Some rowData =>
             for_each
               (fun j g => store2 g i j (or_zero (js_get rowData (j - 1))))
               (seqZ 1 Wn) g
         end)
      (seqZ 1 Hn)
      (replicate (Z.to_nat (Hn + 2)) (replicate (Z.to_nat (Wn + 2)) 0)) = Ret g /\
    shape g (Hn + 2) (Wn + 2)) as (g & Hloop & Hsh).
  { apply (for_each_total (fun g => shape g (Hn + 2) (Wn + 2)));
      [| apply shape_replicate; lia].
    intros i g1 Hi%elem_of_seqZ Hsh1.
    destruct (js_get_inside lines i) as [rowData ->]; [simpl; lia |].
    apply (for_each_total (fun g => shape g (Hn + 2) (Wn + 2))); [| done].
    intros j g2 Hj%elem_of_seqZ Hsh2.
    destruct (shape_store2 g2 _ _ i j (or_zero (js_get rowData (j - 1))) Hsh2)
      as (g3 & Hst & Hsh3 & _); [lia | lia |].
    by exists g3. }
  set (st1 := set_grid st Wn Hn g).
  assert (grid_ok st1) as Hok1 by done.
  destruct (draw_total st1 Hok1) as (st' & Hdraw).
  pose proof (draw_same_grid _ _ Hdraw) as Hsame.
  assert (loadFromInput lines st = Ret st') as Hrun.
  { unfold loadFromInput. rewrite decide_False.
    - unfold lines at 1. rewrite alloc2_ok by lia. rewrite bind_Ret.
      fold lines. rewrite Hloop. by rewrite bind_Ret.
    - unfold lines. destruct rows; [done | simpl; lia]. }
  exists st'. split; [done |].
  pose proof Hsame as (HW' & HH' & _).
  split; [done |]. split; [done |].
  split; [by apply (grid_ok_same_grid st1) |].
  apply (border_empty_same_grid _ _ Hsame).
  apply (load_rows_border st lines Wn Hn
           (replicate (Z.to_nat (Hn + 2)) (replicate (Z.to_nat (Wn + 2)) 0)) g);
    [| done].
  intros c _ _. unfold filled. simpl.
  apply (alloc2_empty (Hn + 2) (Wn + 2)). by rewrite alloc2_ok by lia.
Qed.

(** C4.  The operations that replace or mutate the grid keep the border
    ring empty: whenever [initEmptyGrid] returns, every border cell of the
    new grid is empty; [loadFromInput] and a click on the canvas, started
    with the border ring empty, return with it empty.  Each of them does
    return on well-formed input: dimensions from -1 up, a header followed
    by its rows, a click on a well-shaped grid. *)
Theorem border_ring_preserved :
  (forall Wn Hn st st',
     initEmptyGrid Wn Hn st = Ret st' -> border_empty st') /\
  (forall Wn Hn st, -1 <= Wn -> -1 <= Hn ->
     exists st', initEmptyGrid Wn Hn st = Ret st' /\ grid_ok st') /\
  (forall lines st st',
     border_empty st -> loadFromInput lines st = Ret st' -> border_empty st') /\
  (forall Wn Hn rest rows st,
     -1 <= Wn -> -1 <= Hn -> Hn <= Z.of_nat (length rows) -> rows <> [] ->
     exists st', loadFromInput ((Wn :: Hn :: rest) :: rows) st = Ret st' /\
                 grid_ok st') /\
  (forall (D : Type) (ltD : D -> D -> bool) (hexSize infinity : D)
          (dist : Z -> Z -> D) st st',
     border_empty st ->
     handleClick ltD hexSize infinity dist st = Ret st' -> border_empty st') /\
  (forall (D : Type) (ltD : D -> D -> bool) (hexSize infinity : D)
          (dist : Z -> Z -> D) st,
     grid_ok st ->
     exists st', handleClick ltD hexSize infinity dist st = Ret st' /\
                 grid_ok st').
Proof.
  split; [| split; [| split; [| split; [| split]]]].
  - intros Wn Hn st st' Hrun c _ _. by apply (initEmptyGrid_empty Wn Hn st st').
  - intros Wn Hn st HW HH.
    destruct (initEmptyGrid_total Wn Hn st HW HH) as (st' & Hrun & _ & _ & _ & Hok).
    by exists st'.
  - apply loadFromInput_border.
  - intros Wn Hn rest rows st HW HH Hrows Hne.
    destruct (loadFromInput_total Wn Hn rest rows st HW HH Hrows Hne)
      as (st' & Hrun & _ & _ & Hok & _).
    by exists st'.
  - intros D ltD hexSize infinity dist st st'. apply handleClick_border.
  - intros D ltD hexSize infinity dist st. apply handleClick_total.
Qed.

Lemma border_ring_preserved_witness :
  exists st', new_HexGrid = Ret st' /\ grid_ok st' /\ border_empty st'.
Proof.
  destruct border_ring_preserved as (Hinit & Htotal & _).
  destruct (Htotal 8 4 blank) as (st' & Hrun & Hok); [lia | lia |].
  exists st'. split; [exact Hrun |]. split; [exact Hok |].
  exact (Hinit 8 4 blank st' Hrun).
Defined.

(** * Further properties of the code *)

(** ** The trace *)

(** X1.  [computePerimeter] never touches the grid or the dimensions: from
    any state, well-shaped or not, a trace that returns leaves [W], [H]
    and [grid] as they were. *)
Theorem computePerimeter_leaves_grid (st st' : HexGrid) (n : Z) :
  computePerimeter st = Ret (st', n) ->
  W st' = W st /\ H st' = H st /\ grid st' = grid st.
Proof. apply computePerimeter_same_grid. Qed.

Lemma computePerimeter_leaves_grid_witness :
  exists st' n, computePerimeter two_cells = Ret (st', n) /\
                grid st' = grid two_cells.
Proof.
  destruct (computePerimeter_spec two_cells two_cells_ok) as (st' & ps & Hrun & _).
  exists st', (Z.of_nat (length ps)). split; [exact Hrun |].
  exact (proj2 (proj2 (computePerimeter_leaves_grid _ _ _ Hrun))).
Defined.

(** X2.  After a trace the visited matrix marks exactly the empty cells
    reachable from (0,0): no filled cell and no cell cut off from the seed
    is ever marked. *)
Theorem visited_are_the_reachable (st : HexGrid) :
  grid_ok st ->
  exists st' n,
    computePerimeter st = Ret (st', n) /\
    (forall c, seen (isVisited st') c = true <-> reach st c) /\
    (forall c, filled st c -> seen (isVisited st') c = false).
Proof.
  intros Hok.
  destruct (computePerimeter_spec st Hok) as (st' & ps & Hrun & _ & _ & _ & _ & _ & _ & Hvis).
  exists st', (Z.of_nat (length ps)). split; [done |]. split; [done |].
  intros c Hf. destruct (seen (isVisited st') c) eqn:Hs; [| done].
  apply Hvis in Hs. by apply reach_empty in Hs.
Qed.

Lemma visited_are_the_reachable_witness :
  grid_ok flower /\
  exists st' n, computePerimeter flower = Ret (st', n) /\
                seen (isVisited st') (2, 2) = false.
Proof.
  split; [exact flower_ok |].
  destruct (visited_are_the_reachable flower flower_ok) as (st' & n & Hrun & _ & Hf).
  exists st', n. split; [exact Hrun |]. apply Hf. reflexivity.
Defined.

(** X3.  On a grid without any filled cell the trace returns 0, the edge
    list is empty, and every cell of the grid has been visited. *)
Theorem empty_grid_has_no_edges (st : HexGrid) :
  grid_ok st -> (forall c, in_grid st c -> ~ filled st c) ->
  exists st',
    computePerimeter st = Ret (st', 0) /\
    perimeterEdges st' = [] /\
    forall c, in_grid st c -> seen (isVisited st') c = true.
Proof.
  intros Hok Hempty.
  destruct (computePerimeter_spec st Hok)
    as (st' & ps & Hrun & _ & _ & _ & He & _ & Hps & Hvis).
  assert (ps = []) as ->.
  { destruct ps as [| p ps]; [done |].
    destruct (proj1 (Hps p)) as [_ (n & (_ & _ & Hin) & Hf)]; [by left |].
    by apply Hempty in Hf. }
  exists st'. split; [done |]. split; [done |].
  intros c Hin. apply Hvis. apply reach_all; [| | done | by apply Hempty].
  - intros c' Hin' _. by apply Hempty.
  - intros c' y1 y2 _ _ Hf1 _ _.
    apply (Hempty (y1, c'.2)); [| done]. by apply filled_in_grid.
Qed.

Lemma empty_grid_has_no_edges_witness :
  exists st st',
    initEmptyGrid 2 1 blank = Ret st /\
    computePerimeter st = Ret (st', 0) /\ perimeterEdges st' = [].
Proof.
  destruct (initEmptyGrid_total 2 1 blank) as (st & Hrun & _ & _ & _ & Hok);
    [lia | lia |].
  destruct (empty_grid_has_no_edges st Hok) as (st' & Htrace & He & _).
  - intros c _. exact (initEmptyGrid_empty 2 1 blank st Hrun c).
  - exists st, st'. split; [exact Hrun |]. split; [exact Htrace | exact He].
Defined.

(** X4.  A courtyard is not lit: an empty cell other than the seed whose
    neighbours inside the grid are all filled is never visited, and no
    entry of the edge list is a side facing it. *)
Theorem enclosed_hole_is_dark (st : HexGrid) (e : cell) :
  grid_ok st -> e <> (0, 0) ->
  (forall d n, adj st e d n -> filled st n) ->
  exists st' n,
    computePerimeter st = Ret (st', n) /\
    seen (isVisited st') e = false /\
    forall ed, ed ∈ perimeterEdges st' ->
      neighbour (edge_y ed, edge_x ed) (edge_dir ed) <> Ret e.
Proof.
  intros Hok Hseed Hwalls.
  assert (~ reach st e) as Hdark.
  { intros Hr. inversion Hr as [Hin Hnf Heq | e' d n Hr' Hadj Hnf Heq]; [done |].
    subst n. pose proof (exposed_back st e' e d Hr' Hadj) as Hb.
    destruct Hadj as (Hd & _ & _).
    apply (reach_empty st e' Hr'). apply (Hwalls (Z.rem (d + 3) 6)).
    split; [by apply back_dir_range |]. split; [done |].
    by apply reach_in_grid. }
  destruct (computePerimeter_spec st Hok)
    as (st' & ps & Hrun & _ & _ & _ & _ & _ & _ & Hvis).
  destruct (computePerimeter_edges st Hok) as (st2 & Hrun2 & _ & _ & Hlit).
  assert (st2 = st') as -> by congruence.
  exists st', (Z.of_nat (length ps)). split; [done |]. split.
  - destruct (seen (isVisited st') e) eqn:Hs; [| done]. by apply Hvis in Hs.
  - intros ed (_ & _ & _ & e' & Hn & Hr)%Hlit Heq.
    rewrite Hn in Heq. by injection Heq as ->.
Qed.

Lemma enclosed_hole_is_dark_witness :
  grid_ok courtyard /\
  exists st' n,
    computePerimeter courtyard = Ret (st', n) /\
    seen (isVisited st') (2, 2) = false.
Proof.
  split; [grid_shape |].
  destruct (enclosed_hole_is_dark courtyard (2, 2)) as (st' & n & Hrun & Hs & _).
  - grid_shape.
  - discriminate.
  - intros d n (Hd & Hn & _).
    dir_cases d; vm_compute in Hn; injection Hn as <-; reflexivity.
  - exists st', n. split; [exact Hrun | exact Hs].
Defined.

Lemma elem_of_cells (st : HexGrid) (c : cell) : c ∈ cells st <-> in_grid st c.
Proof.
  unfold cells, in_grid. rewrite list_elem_of_bind. split.
  - intros (y & Hc & Hy%elem_of_seqZ).
    apply list_elem_of_bind in Hc as (x & Hc & Hx%elem_of_seqZ).
    apply list_elem_of_singleton in Hc as ->. simpl. lia.
  - intros [Hy Hx]. exists c.1. split; [| apply elem_of_seqZ; lia].
    apply list_elem_of_bind. exists c.2. split; [| apply elem_of_seqZ; lia].
    apply list_elem_of_singleton. by destruct c.
Qed.

Lemma length_bind_sides (l : list cell) :
  length (l ≫= fun c => sides c.1 c.2) = (6 * length l)%nat.
Proof.
  induction l as [| c l IH]; [done |].
  rewrite bind_cons, length_app, IH. simpl. lia.
Qed.

(** X5.  The count never exceeds six per building: it is at most 6 times
    the number of filled cells of the grid. *)
Theorem perimeter_at_most_six_per_building (st : HexGrid) :
  grid_ok st ->
  exists st' n,
    computePerimeter st = Ret (st', n) /\
    0 <= n <= 6 * Z.of_nat (length (buildings st)).
Proof.
  intros Hok.
  destruct (computePerimeter_edges st Hok) as (st' & Hrun & _ & Hnd & Hlit).
  exists st', (Z.of_nat (length (perimeterEdges st'))). split; [done |].
  assert (perimeterEdges st' ⊆+ (buildings st ≫= fun c => sides c.1 c.2)) as Hsub.
  { apply NoDup_submseteq; [done |].
    intros ed (Hd & Hin & Hf & _)%Hlit.
    apply list_elem_of_bind. exists (edge_y ed, edge_x ed). split.
    - by apply elem_of_sides.
    - apply list_elem_of_filter. split; [done | by apply elem_of_cells]. }
  apply submseteq_length in Hsub. rewrite length_bind_sides in Hsub. lia.
Qed.

Lemma perimeter_at_most_six_per_building_witness :
  grid_ok flower /\
  exists st' n, computePerimeter flower = Ret (st', n) /\ 0 <= n <= 42.
Proof.
  split; [exact flower_ok |].
  exact (perimeter_at_most_six_per_building flower flower_ok).
Defined.

(** X6.  With the border ring empty every entry of the edge list names a
    content cell, and the two vertex indices [drawPerimeter] derives from
    its side lie in 0..5, inside the six vertices of a hexagon. *)
Theorem edges_name_content_cells (st : HexGrid) :
  grid_ok st -> border_empty st ->
  exists st' n,
    computePerimeter st = Ret (st', n) /\
    forall ed, ed ∈ perimeterEdges st' ->
      content st (edge_y ed, edge_x ed) /\
      0 <= (segment_ends ed).1 < 6 /\ 0 <= (segment_ends ed).2 < 6.
Proof.
  intros Hok Hborder.
  destruct (computePerimeter_edges st Hok) as (st' & Hrun & _ & _ & Hlit).
  exists st', (Z.of_nat (length (perimeterEdges st'))). split; [done |].
  intros ed (Hd & Hin & Hf & _)%Hlit. split.
  - assert (~ on_border st (edge_y ed, edge_x ed)) as Hnb.
    { intros Hb. by apply (Hborder _ Hin Hb). }
    unfold on_border, in_grid, content in *. simpl in *. lia.
  - unfold segment_ends. simpl. destruct ed as [x y dir]. simpl in *.
    dir_cases dir; done.
Qed.

Lemma edges_name_content_cells_witness :
  grid_ok lone_cell /\ border_empty lone_cell /\
  exists st' n,
    computePerimeter lone_cell = Ret (st', n) /\
    forall ed, ed ∈ perimeterEdges st' -> content lone_cell (edge_y ed, edge_x ed).
Proof.
  split; [exact lone_cell_ok |]. split; [exact lone_cell_border |].
  destruct (edges_name_content_cells lone_cell lone_cell_ok lone_cell_border)
    as (st' & n & Hrun & Hed).
  exists st', n. split; [exact Hrun |].
  intros ed Hin. exact (proj1 (Hed ed Hin)).
Defined.

(** One building on a content cell, wherever it is. *)
Lemma single_building (st : HexGrid) (row col : Z) :
  grid_ok st -> content st (row, col) ->
  (forall c, in_grid st c -> (filled st c <-> c = (row, col))) ->
  exists st',
    computePerimeter st = Ret (st', 6) /\
    (perimeterEdges st' ≡ₚ sides row col).
Proof.
  intros Hok [Hrow Hcol] Honly. simpl in Hrow, Hcol.
  assert (in_grid st (row, col)) as Hfin by (unfold in_grid; simpl; lia).
  assert (border_empty st) as Hborder.
  { intros c Hin Hb Hf. apply Honly in Hf; [| done]. subst c.
    unfold on_border in Hb. simpl in Hb. lia. }
  assert (forall c, in_grid st c -> ~ filled st c -> reach st c) as Hall.
  { apply reach_all; [done |].
    intros c y1 y2 Hin Hnf Hf1 Hf2 Hbetween.
    pose proof (filled_in_grid st _ Hok Hf1) as Hin1.
    pose proof (filled_in_grid st _ Hok Hf2) as Hin2.
    apply Honly in Hf1; [| done]. apply Honly in Hf2; [| done].
    simplify_eq. lia. }
  change 6 with (Z.of_nat (length (sides row col))).
  apply edges_permutation; [done | apply NoDup_sides |].
  intros ed. rewrite elem_of_sides. split.
  - intros (Hd & Hin & Hf & _). apply Honly in Hf; [| done].
    by injection Hf as -> ->.
  - intros (Hy & Hx & Hd). destruct ed as [x y dir]; simpl in *; subst.
    split; [done |]. split; [done |]. split; [by apply Honly |].
    destruct (neighbour_total (row, col) dir) as [e He]; [simpl; lia | done |].
    exists e. split; [done |].
    destruct (neighbour_near (row, col) e dir) as (Hy & Hx & Hne);
      [simpl; lia | done | done |]. simpl in Hy, Hx.
    assert (in_grid st e) as Hine by (unfold in_grid; lia).
    apply Hall; [done |]. intros Hfe. by apply Honly in Hfe.
Qed.

(** X7.  Thanks to the padding ring a single building has six edges
    wherever it stands in the content area, the content border included:
    the count is 6 and the edge list is its six sides in some order. *)
Theorem single_content_cell_has_six_edges (st : HexGrid) (row col : Z) :
  grid_ok st -> 1 <= row <= H st -> 1 <= col <= W st ->
  (forall c, in_grid st c -> (filled st c <-> c = (row, col))) ->
  exists st',
    computePerimeter st = Ret (st', 6) /\
    (perimeterEdges st' ≡ₚ sides row col).
Proof. intros Hok Hrow Hcol. by apply single_building. Qed.

Lemma single_content_cell_has_six_edges_witness :
  grid_ok corner_cell /\
  exists st', computePerimeter corner_cell = Ret (st', 6).
Proof.
  split; [grid_shape |].
  destruct (single_content_cell_has_six_edges corner_cell 1 1)
    as (st' & Hrun & _).
  - grid_shape.
  - simpl; lia.
  - simpl; lia.
  - intros [y x] [Hy Hx]. split.
    + intros Hf. small_cases y Hy; small_cases x Hx; done.
    + intros [= -> ->]. reflexivity.
  - exists st'. exact Hrun.
Defined.

(** ** The neighbour tables *)

(** X8.  Adjacency under the two tables is symmetric with opposite
    directions: if [n] is the neighbour of [e] in direction [d], then [e]
    is the neighbour of [n] in direction [(d + 3) % 6], which is the
    [backDir] the trace records; and [backDir] of [backDir] is [d]. *)
Theorem adjacency_is_symmetric (e n : cell) (d : Z) :
  0 <= e.1 -> 0 <= n.1 -> 0 <= d < 6 ->
  neighbour e d = Ret n ->
  neighbour n (Z.rem (d + 3) 6) = Ret e /\
  0 <= Z.rem (d + 3) 6 < 6 /\
  Z.rem (Z.rem (d + 3) 6 + 3) 6 = d.
Proof.
  intros He Hn Hd Hstep. split; [by apply (neighbour_back e n d) |].
  split; [by apply back_dir_range | by apply back_dir_back].
Qed.

Lemma adjacency_is_symmetric_witness :
  neighbour (3, 2) 1 = Ret (4, 3) /\ neighbour (4, 3) 4 = Ret (3, 2).
Proof.
  split; [reflexivity |].
  apply (adjacency_is_symmetric (3, 2) (4, 3) 1); [simpl; lia | simpl; lia | lia |].
  reflexivity.
Defined.

(** X9.  The six directions out of a cell lead to six different cells,
    none of them the cell itself, each at most one row and one column
    away. *)
Theorem six_distinct_neighbours (e : cell) (d : Z) :
  0 <= e.1 -> 0 <= d < 6 ->
  exists n,
    neighbour e d = Ret n /\ n <> e /\
    e.1 - 1 <= n.1 <= e.1 + 1 /\ e.2 - 1 <= n.2 <= e.2 + 1 /\
    forall d', 0 <= d' < 6 -> neighbour e d' = Ret n -> d' = d.
Proof.
  intros He Hd. destruct (neighbour_total e d He Hd) as [n Hn].
  destruct (neighbour_near e n d He Hd Hn) as (Hy & Hx & Hne).
  exists n. split; [done |]. split; [done |]. split; [done |]. split; [done |].
  intros d' Hd' Hn'. apply (neighbour_inj_dir e d' d); [done | done | done |].
  congruence.
Qed.

Lemma six_distinct_neighbours_witness :
  exists n, neighbour (2, 5) 4 = Ret n /\ n <> (2, 5).
Proof.
  destruct (six_distinct_neighbours (2, 5) 4) as (n & Hn & Hne & _);
    [simpl; lia | lia |].
  exists n. split; [exact Hn | exact Hne].
Defined.

(** ** Clicks *)

Lemma draw_synced (st st' : HexGrid) : draw st = Ret st' -> synced st'.
Proof.
  unfold draw. destruct (computePerimeter st) as [[st1 n] | |] eqn:Hrun;
    cbn [mbind outcome_bind]; [| done | done].
  destruct (draw_hexagons (st1, n).1) as [u | |]; cbn [mbind outcome_bind];
    [| done | done].
  intros [= <-]. exists n.
  rewrite (computePerimeter_ext st st1); [done |].
  by apply computePerimeter_same_grid in Hrun.
Qed.

Lemma synced_draw (st st1 : HexGrid) :
  grid_ok st -> synced st -> same_grid st st1 -> draw st1 = Ret st.
Proof.
  intros Hok [n Hn] Hsame. unfold draw.
  rewrite (computePerimeter_ext st st1 Hsame), Hn. cbn [mbind outcome_bind fst].
  by rewrite draw_hexagons_ok.
Qed.

(** Writing back the value read undoes a write. *)
Lemma store2_undo {A : Type} (m m1 : list (list A)) (rows cols y x : Z) (v w : A) :
  shape m rows cols -> 0 <= y < rows -> 0 <= x < cols ->
  at2 m y x = Ret (Some v) -> store2 m y x w = Ret m1 ->
  store2 m1 y x v = Ret m.
Proof.
  intros Hm Hy Hx Hv Hst.
  destruct (shape_row m rows cols y Hm Hy) as (r & Hr & Hlen).
  destruct Hm as [Hrows _].
  unfold at2 in Hv. rewrite Hr in Hv. injection Hv as Hv.
  unfold store2 in Hst. rewrite Hr in Hst.
  rewrite (js_set_inside r) in Hst by lia.
  rewrite (js_set_inside m) in Hst by lia. injection Hst as <-.
  unfold store2. rewrite js_get_insert_eq by lia.
  rewrite js_set_inside by (rewrite length_insert; lia).
  rewrite js_set_inside by (rewrite length_insert; lia).
  rewrite !list_insert_insert_eq.
  rewrite js_get_lookup in Hr by lia. rewrite js_get_lookup in Hv by lia.
  rewrite (list_insert_id r) by done. by rewrite (list_insert_id m).
Qed.

(** Up to 2^53 in magnitude an integer is its own double. *)
Lemma to_double_exact (z : Z) : Z.abs z <= 2 ^ 53 -> to_double z = z.
Proof.
  intros Hz. unfold to_double.
  destruct (Z.abs z <? 2 ^ 53) eqn:Hlt; [done |].
  apply Z.ltb_ge in Hlt.
  assert (z = 2 ^ 53 \/ z = - 2 ^ 53) as [-> | ->] by lia; vm_compute; reflexivity.
Qed.



Section ClickEffects.
Context {D : Type} (ltD : D -> D -> bool) (hexSize infinity : D).
Variable dist : Z -> Z -> D.

Lemma pick_ext (st st' : HexGrid) :
  W st' = W st -> H st' = H st ->
  pick ltD hexSize infinity dist st' = pick ltD hexSize infinity dist st.
Proof. intros HW HH. unfold pick. by rewrite HW, HH. Qed.

(** What a click that picks [(x, y)] does to a well-shaped grid. *)
Lemma handleClick_effect (st : HexGrid) (x y : Z) :
  grid_ok st ->
  (pick ltD hexSize infinity dist st).2 = Some (x, y) ->
  exists v g st',
    at2 (grid st) y x = Ret (Some v) /\
    store2 (grid st) y x (to_double (1 - v)) = Ret g /\
    handleClick ltD hexSize infinity dist st = Ret st' /\
    same_grid (set_grid st (W st) (H st) g) st' /\
    grid_ok st' /\ synced st' /\
    at2 (grid st') y x = Ret (Some (to_double (1 - v))) /\
    (forall y' x', (y', x') <> (y, x) ->
       at2 (grid st') y' x' = at2 (grid st) y' x').
Proof.
  intros Hok Hpick. pose proof (pick_content _ _ _ _ _ _ _ Hpick) as [Hy Hx].
  pose proof Hok as (HH & HW & Hsh).
  destruct (shape_at2 (grid st) _ _ y x Hsh) as [v Hv]; [lia | lia |].
  destruct (shape_store2 (grid st) _ _ y x (to_double (1 - v)) Hsh)
    as (g & Hst & Hsh' & Hnew & Hoth); [lia | lia |].
  set (st1 := set_grid st (W st) (H st) g).
  assert (grid_ok st1) as Hok1 by done.
  destruct (draw_total st1 Hok1) as (st' & Hdraw).
  pose proof (draw_same_grid _ _ Hdraw) as Hsame.
  exists v, g, st'. split; [done |]. split; [done |]. split.
  { unfold handleClick. rewrite Hpick, Hv. cbn [mbind outcome_bind].
    rewrite Hst. done. }
  split; [done |]. split; [by apply (grid_ok_same_grid st1) |].
  split; [by apply (draw_synced st1) |].
  destruct Hsame as (_ & _ & ->). done.
Qed.


(** X11.  A click that is within [hexSize] of no content cell changes
    nothing, and does not even redraw. *)
Theorem click_off_the_cells_changes_nothing (st : HexGrid) :
  (forall x y, 1 <= y <= H st -> 1 <= x <= W st ->
     ltD (dist x y) hexSize = false) ->
  handleClick ltD hexSize infinity dist st = Ret st.
Proof.
  intros Hfar. unfold handleClick.
  assert (pick ltD hexSize infinity dist st = (infinity, None)) as ->; [| done].
  unfold pick. apply (foldl_inv (fun acc => acc = (infinity, None))); [| done].
  intros acc y Hy%elem_of_seqZ ->.
  apply (foldl_inv (fun acc => acc = (infinity, None))); [| done].
  intros acc x Hx%elem_of_seqZ ->.
  rewrite Hfar by lia. done.
Qed.

(** X12.  Two clicks at the same place undo each other as long as the
    cells hold safe integers: on such a grid, with its trace up to date,
    the second click returns the very state the first one started from,
    edge list and visited matrix included.  (Beyond the safe integers the
    subtraction of doubles rounds, and the value does not come back:
    [click_twice_beyond_safe].) *)
Theorem click_twice_restores (st : HexGrid) :
  grid_ok st -> synced st ->
  (forall y x v, at2 (grid st) y x = Ret (Some v) -> safe_integer v) ->
  exists st1,
    handleClick ltD hexSize infinity dist st = Ret st1 /\
    handleClick ltD hexSize infinity dist st1 = Ret st.
Proof.
  intros Hok Hsync Hsafe.
  destruct (pick ltD hexSize infinity dist st).2 as [[x y] |] eqn:Hpick.
  - destruct (handleClick_effect st x y Hok Hpick)
      as (v & g & st1 & Hv & Hst & Hrun & Hsame & Hok1 & _ & Hnew & _).
    exists st1. split; [done |].
    pose proof Hsame as (HW & HH & Hg). simpl in HW, HH, Hg.
    pose proof (pick_content _ _ _ _ _ _ _ Hpick) as [Hy Hx].
    pose proof Hok as (_ & _ & Hsh).
    pose proof (Hsafe y x v Hv) as Hv53. unfold safe_integer in Hv53.
    rewrite (to_double_exact (1 - v)) in Hst, Hnew by lia.
    unfold handleClick. rewrite (pick_ext st st1 HW HH), Hpick, Hnew.
    cbn [mbind outcome_bind].
    replace (1 - (1 - v)) with v by lia. rewrite to_double_exact by lia.
    rewrite Hg.
    rewrite (store2_undo (grid st) g _ _ y x v (1 - v) Hsh); [| lia | lia | done | done].
    cbn [mbind outcome_bind]. apply synced_draw; [done | done |].
    split; [done |]. split; done.
  - exists st. unfold handleClick. rewrite Hpick. done.
Qed.
End ClickEffects.

Lemma at2_replicate_value {A : Type} (n m : nat) (c v : A) (y x : Z) :
  at2 (replicate n (replicate m c)) y x = Ret (Some v) -> v = c.
Proof.
  unfold at2, js_get. case_decide; [| done].
  destruct (replicate n _ !! _) as [r |] eqn:Hr; [| done].
  apply lookup_replicate in Hr as [-> _].
  intros [= Hv]. case_decide; [| done].
  by apply lookup_replicate in Hv as [-> _].
Qed.

Lemma click_22_picks :
  (pick Z.ltb 1 1000 click_22 lone_cell).2 = Some (2, 2).
Proof. reflexivity. Qed.


Lemma click_off_the_cells_changes_nothing_witness :
  handleClick Z.ltb 0 1000 click_22 lone_cell = Ret lone_cell.
Proof.
  apply (click_off_the_cells_changes_nothing Z.ltb 0 1000 click_22 lone_cell).
  intros x y _ _. unfold click_22. apply Z.ltb_ge. lia.
Defined.

Lemma click_twice_restores_witness :
  exists st st1,
    initEmptyGrid 3 3 blank = Ret st /\
    handleClick Z.ltb 1 1000 click_22 st = Ret st1 /\
    handleClick Z.ltb 1 1000 click_22 st1 = Ret st.
Proof.
  destruct (initEmptyGrid_total 3 3 blank) as (st & Hrun & _ & _ & Hg & Hok);
    [lia | lia |].
  assert (synced st) as Hsync.
  { unfold initEmptyGrid, resizeCanvas in Hrun.
    destruct (alloc2 (3 + 2) (3 + 2) 0) as [g | |]; [| discriminate Hrun | discriminate Hrun].
    exact (draw_synced _ _ Hrun). }
  destruct (click_twice_restores Z.ltb 1 1000 click_22 st Hok Hsync)
    as (st1 & H1 & H2).
  - intros y x v Hv. rewrite Hg in Hv.
    apply at2_replicate_value in Hv. rewrite Hv. unfold safe_integer. lia.
  - exists st, st1. split; [exact Hrun |]. split; [exact H1 | exact H2].
Defined.

(** Beyond the safe integers a second click does not undo the first: the
    cell holding -2^53 holds 2^53 after one click, since 2^53 + 1 is no
    double, and 1 - 2^53 after two. *)
Example click_twice_beyond_safe :
  exists st1 st2,
    handleClick Z.ltb 1 1000 (fun _ _ => 0) huge_cell = Ret st1 /\
    at2 (grid st1) 1 1 = Ret (Some (2 ^ 53)) /\
    handleClick Z.ltb 1 1000 (fun _ _ => 0) st1 = Ret st2 /\
    at2 (grid st2) 1 1 = Ret (Some (1 - 2 ^ 53)).
Proof.
  eexists. eexists. split; [vm_compute; reflexivity |].
  split; [vm_compute; reflexivity |].
  split; vm_compute; reflexivity.
Qed.

Section Nearest.
Context {D : Type} (ltD : D -> D -> bool) (hexSize infinity : D).
Variable dist : Z -> Z -> D.

(** The comparison is a strict order, and whatever is below [hexSize] is
    below [infinity]: so it is for [<] on the source's numbers, [hexSize]
    being 30 and [bestDist] starting at [Infinity]. *)
Hypothesis lt_irrefl : forall a, ltD a a = false.
Hypothesis lt_trans : forall a b c, ltD a b = true -> ltD b c = true -> ltD a c = true.
Hypothesis lt_infinity : forall a, ltD a hexSize = true -> ltD a infinity = true.

Lemma best_among_step (visited : list (Z * Z)) (acc : D * option (Z * Z)) (x y : Z) :
  best_among ltD hexSize infinity dist visited acc ->
  best_among ltD hexSize infinity dist ((x, y) :: visited)
    (if ltD (dist x y) hexSize && ltD (dist x y) acc.1
     then (dist x y, Some (x, y)) else acc).
Proof.
  unfold best_among. destruct acc as [best [b |]]; simpl.
  - intros (Hb & -> & Hin & Hmin).
    destruct (ltD (dist x y) hexSize) eqn:Hnear; simpl.
    + destruct (ltD (dist x y) (dist b.1 b.2)) eqn:Hless; simpl.
      * split; [by left |]. split; [done |]. split; [done |].
        intros p [-> | Hp]%elem_of_cons Hpn; simpl; [by apply lt_irrefl |].
        destruct (ltD (dist p.1 p.2) (dist x y)) eqn:Hp'; [| done].
        rewrite <- (Hmin p Hp Hpn). symmetry. by eapply lt_trans.
      * split; [by right |]. split; [done |]. split; [done |].
        intros p [-> | Hp]%elem_of_cons Hpn; simpl; [done | by apply Hmin].
    + split; [by right |]. split; [done |]. split; [done |].
      intros p [-> | Hp]%elem_of_cons Hpn; simpl in *; [congruence | by apply Hmin].
  - intros (-> & Hfar).
    destruct (ltD (dist x y) hexSize) eqn:Hnear; simpl.
    + rewrite (lt_infinity _ Hnear). simpl.
      split; [by left |]. split; [done |]. split; [done |].
      intros p [-> | Hp]%elem_of_cons Hpn; simpl; [by apply lt_irrefl |].
      rewrite (Hfar p Hp) in Hpn. done.
    + split; [done |].
      intros p [-> | Hp]%elem_of_cons; simpl; [done | by apply Hfar].
Qed.

Lemma best_among_row (y : Z) (xs : list Z) (visited : list (Z * Z))
    (acc : D * option (Z * Z)) :
  best_among ltD hexSize infinity dist visited acc ->
  exists visited',
    best_among ltD hexSize infinity dist visited'
      (foldl (fun acc x =>
                if ltD (dist x y) hexSize && ltD (dist x y) acc.1
                then (dist x y, Some (x, y)) else acc) acc xs) /\
    forall p, p ∈ visited' <-> p ∈ visited \/ (p.2 = y /\ p.1 ∈ xs).
Proof.
  revert visited acc. induction xs as [| x xs IH]; intros visited acc Hacc; simpl.
  - exists visited. split; [done |]. intros p. split; [by left |].
    intros [? | [_ Hp]]; [done | by apply elem_of_nil in Hp].
  - destruct (IH _ _ (best_among_step visited acc x y Hacc)) as (visited' & Hb & Hm).
    exists visited'. split; [done |].
    intros [px py]. rewrite Hm, !elem_of_cons. simpl. split.
    + intros [[[= -> ->] | ?] | [? ?]]; auto.
    + intros [? | [-> [-> | ?]]]; auto.
Qed.

Lemma best_among_rows (xs ys : list Z) (visited : list (Z * Z))
    (acc : D * option (Z * Z)) :
  best_among ltD hexSize infinity dist visited acc ->
  exists visited',
    best_among ltD hexSize infinity dist visited'
      (foldl (fun acc y =>
                foldl (fun acc x =>
                         if ltD (dist x y) hexSize && ltD (dist x y) acc.1
                         then (dist x y, Some (x, y)) else acc) acc xs)
             acc ys) /\
    forall p, p ∈ visited' <-> p ∈ visited \/ (p.2 ∈ ys /\ p.1 ∈ xs).
Proof.
  revert visited acc. induction ys as [| y ys IH]; intros visited acc Hacc; simpl.
  - exists visited. split; [done |]. intros p. split; [by left |].
    intros [? | [Hp _]]; [done | by apply elem_of_nil in Hp].
  - destruct (best_among_row y xs visited acc Hacc) as (visited1 & Hb1 & Hm1).
    destruct (IH _ _ Hb1) as (visited' & Hb & Hm).
    exists visited'. split; [done |].
    intros p. rewrite Hm, Hm1, elem_of_cons. split.
    + intros [[? | [? ?]] | [? ?]]; auto.
    + intros [? | [[-> | ?] ?]]; auto.
Qed.

(** X13.  [handleClick] picks a nearest cell: when the comparison is a
    strict order, [bestPos] is empty exactly when no content cell is
    within [hexSize] of the pointer, and otherwise it is a content cell
    within [hexSize], [bestDist] is its distance, and no content cell
    within [hexSize] is strictly nearer. *)
Theorem pick_is_nearest (st : HexGrid) :
  match (pick ltD hexSize infinity dist st).2 with
  | None =>
      forall x y, 1 <= y <= H st -> 1 <= x <= W st ->
                  ltD (dist x y) hexSize = false
  | Some (x, y) =>
      (1 <= y <= H st /\ 1 <= x <= W st) /\
      (pick ltD hexSize infinity dist st).1 = dist x y /\
      ltD (dist x y) hexSize = true /\
      forall x' y', 1 <= y' <= H st -> 1 <= x' <= W st ->
        ltD (dist x' y') hexSize = true ->
        ltD (dist x' y') (dist x y) = false
  end.
Proof.
  destruct (best_among_rows (seqZ 1 (W st)) (seqZ 1 (H st)) [] (infinity, None))
    as (visited & Hbest & Hmem).
  { split; [done |]. intros p Hp. by apply elem_of_nil in Hp. }
  fold (pick ltD hexSize infinity dist st) in Hbest.
  assert (forall x y, (x, y) ∈ visited <-> 1 <= y <= H st /\ 1 <= x <= W st) as Hcells.
  { intros x y. rewrite Hmem, !elem_of_seqZ. simpl. split.
    - intros [Hp | ?]; [by apply elem_of_nil in Hp | lia].
    - intros ?. right. lia. }
  unfold best_among in Hbest.
  destruct (pick ltD hexSize infinity dist st).2 as [[x y] |].
  - destruct Hbest as (Hb & Hd & Hnear & Hmin). simpl in *.
    split; [by apply Hcells |]. split; [done |]. split; [done |].
    intros x' y' Hy' Hx' Hn'. apply (Hmin (x', y')); [| done].
    by apply Hcells.
  - destruct Hbest as [_ Hfar]. intros x y Hy Hx.
    apply (Hfar (x, y)). by apply Hcells.
Qed.
End Nearest.

Lemma pick_is_nearest_witness :
  (pick Z.ltb 1 1000 click_22 lone_cell).2 = Some (2, 2) /\
  forall x' y', 1 <= y' <= 3 -> 1 <= x' <= 3 ->
    Z.ltb (click_22 x' y') 1 = true ->
    Z.ltb (click_22 x' y') (click_22 2 2) = false.
Proof.
  split; [exact click_22_picks |].
  pose proof (pick_is_nearest Z.ltb 1 1000 click_22
                Z.ltb_irrefl
                (fun a b c Hab Hbc =>
                   proj2 (Z.ltb_lt a c)
                     (Z.lt_trans a b c (proj1 (Z.ltb_lt a b) Hab)
                        (proj1 (Z.ltb_lt b c) Hbc)))
                (fun a Ha =>
                   proj2 (Z.ltb_lt a 1000)
                     (Z.lt_trans a 1 1000 (proj1 (Z.ltb_lt a 1) Ha) eq_refl))
                lone_cell) as Hpick.
  rewrite click_22_picks in Hpick.
  exact (proj2 (proj2 (proj2 Hpick))).
Defined.

(** ** The stored trace *)

(** X14.  The stored trace is kept up to date: [initEmptyGrid] leaves a
    state whose visited matrix and edge list are those of a trace of its
    grid, and [loadFromInput] and [handleClick] keep such a state such;
    the edge list of such a state, on a well-shaped grid, holds exactly
    the lit sides of the current grid. *)
Theorem trace_kept_up_to_date :
  (forall Wn Hn st st', initEmptyGrid Wn Hn st = Ret st' -> synced st') /\
  (forall lines st st',
     synced st -> loadFromInput lines st = Ret st' -> synced st') /\
  (forall (D : Type) (ltD : D -> D -> bool) (hexSize infinity : D)
          (dist : Z -> Z -> D) st st',
     synced st ->
     handleClick ltD hexSize infinity dist st = Ret st' -> synced st') /\
  (forall st, grid_ok st -> synced st ->
     forall ed, ed ∈ perimeterEdges st <-> lit st ed).
Proof.
  split; [| split; [| split]].
  - intros Wn Hn st st'. unfold initEmptyGrid, resizeCanvas.
    destruct (alloc2 (Hn + 2) (Wn + 2) 0) as [g | |]; cbn [mbind outcome_bind];
      [| done | done].
    apply draw_synced.
  - intros lines st st' Hs. unfold loadFromInput.
    case_decide; [by intros [= <-] |].
    destruct lines as [| [| Wn [| Hn rest]] rows]; [done | done | done |].
    destruct (alloc2 (Hn + 2) (Wn + 2) 0) as [g0 | |]; cbn [mbind outcome_bind];
      [| done | done].
    destruct (for_each _ (seqZ 1 Hn) g0) as [g | |]; cbn [mbind outcome_bind];
      [| done | done].
    apply draw_synced.
  - intros D ltD hexSize infinity dist st st' Hs. unfold handleClick.
    destruct (pick ltD hexSize infinity dist st).2 as [[x y] |];
      [| by intros [= <-]].
    destruct (at2 (grid st) y x) as [[v |] | |]; cbn [mbind outcome_bind];
      [| done | done | done].
    destruct (store2 (grid st) y x (to_double (1 - v))) as [g | |]; cbn [mbind outcome_bind];
      [| done | done].
    apply draw_synced.
  - intros st Hok [n Hn] ed.
    destruct (computePerimeter_edges st Hok) as (st' & Hrun & _ & _ & Hlit).
    assert (st' = st) as -> by congruence. apply Hlit.
Qed.

Lemma trace_kept_up_to_date_witness :
  exists st', new_HexGrid = Ret st' /\ synced st'.
Proof.
  destruct (initEmptyGrid_total 8 4 blank) as (st' & Hrun & _); [lia | lia |].
  exists st'. split; [exact Hrun |].
  exact (proj1 trace_kept_up_to_date 8 4 blank st' Hrun).
Defined.

Lemma at2_zeros (rows cols y x : Z) :
  0 <= y < rows -> 0 <= x < cols ->
  at2 (replicate (Z.to_nat rows) (replicate (Z.to_nat cols) 0)) y x = Ret (Some 0).
Proof.
  intros Hy Hx. unfold at2.
  rewrite !js_get_lookup by lia.
  rewrite lookup_replicate_2 by lia.
  rewrite js_get_lookup by lia.
  by rewrite lookup_replicate_2 by lia.
Qed.

Lemma initEmptyGrid_inv (Wn Hn : Z) (st0 st : HexGrid) :
  initEmptyGrid Wn Hn st0 = Ret st ->
  W st = Wn /\ H st = Hn /\ alloc2 (Hn + 2) (Wn + 2) 0 = Ret (grid st).
Proof.
  unfold initEmptyGrid, resizeCanvas.
  destruct (alloc2 (Hn + 2) (Wn + 2) 0) as [g | |]; cbn [mbind outcome_bind];
    [| done | done].
  intros (HW & HH & Hg)%draw_same_grid. simpl in *. by rewrite Hg.
Qed.

(** X15.  The first click on a fresh grid lights the six sides of the
    clicked cell: after [initEmptyGrid], a click that picks [(x, y)]
    leaves an edge list made of the sides 0..5 of that cell. *)
Theorem first_click_lights_six_sides {D : Type} (ltD : D -> D -> bool)
    (hexSize infinity : D) (dist : Z -> Z -> D)
    (Wn Hn : Z) (st0 st : HexGrid) (x y : Z) :
  initEmptyGrid Wn Hn st0 = Ret st ->
  (pick ltD hexSize infinity dist st).2 = Some (x, y) ->
  exists st',
    handleClick ltD hexSize infinity dist st = Ret st' /\
    (perimeterEdges st' ≡ₚ sides y x) /\
    length (perimeterEdges st') = 6%nat.
Proof.
  intros (HW & HH & Hg)%initEmptyGrid_inv Hpick.
  pose proof (pick_content _ _ _ _ _ _ _ Hpick) as [Hy Hx].
  rewrite alloc2_ok in Hg by lia. injection Hg as Hg.
  assert (grid_ok st) as Hok.
  { split; [lia |]. split; [lia |]. rewrite <- Hg, HW, HH.
    apply shape_replicate; lia. }
  assert (forall c, in_grid st c -> at2 (grid st) c.1 c.2 = Ret (Some 0)) as Hzero.
  { intros c [? ?]. rewrite <- Hg. apply at2_zeros; lia. }
  destruct (handleClick_effect ltD hexSize infinity dist st x y Hok Hpick)
    as (v & g & st' & Hv & _ & Hrun & (HW' & HH' & _) & Hok' & [n Hsync] & Hnew & Hoth).
  simpl in HW', HH'.
  assert (v = 0) as ->.
  { pose proof (Hzero (y, x)) as H0. simpl in H0.
    rewrite H0 in Hv; [by injection Hv | unfold in_grid; simpl; lia]. }
  destruct (single_building st' y x Hok') as (st2 & Hrun2 & Hperm).
  - unfold content. simpl. lia.
  - intros [cy cx] Hin. unfold filled. simpl. split.
    + intros Hf. destruct (decide ((cy, cx) = (y, x))) as [-> | Hne]; [done |].
      rewrite (Hoth _ _ Hne) in Hf.
      pose proof (Hzero (cy, cx)) as H0. simpl in H0.
      rewrite H0 in Hf; [done |].
      unfold in_grid in *. by rewrite <- HW', <- HH'.
    + intros [= -> ->]. by rewrite Hnew.
  - assert (st2 = st') as -> by congruence.
    exists st'. split; [done |]. split; [done |]. by rewrite Hperm.
Qed.

Lemma first_click_lights_six_sides_witness :
  exists st st',
    initEmptyGrid 3 3 blank = Ret st /\
    handleClick Z.ltb 1 1000 click_22 st = Ret st' /\
    length (perimeterEdges st') = 6%nat.
Proof.
  destruct (initEmptyGrid_total 3 3 blank) as (st & Hrun & HW & HH & _);
    [lia | lia |].
  assert ((pick Z.ltb 1 1000 click_22 st).2 = Some (2, 2)) as Hpick.
  { unfold pick. rewrite HW, HH. reflexivity. }
  destruct (first_click_lights_six_sides Z.ltb 1 1000 click_22 3 3 blank st 2 2
              Hrun Hpick) as (st' & Hclick & _ & Hlen).
  exists st, st'. split; [exact Hrun |]. split; [exact Hclick | exact Hlen].
Defined.

(** ** Dimensions out of range *)

(** X16.  Dimensions the page cannot draw are not rejected but fail on
    the way: a height below -1 gives a grid without rows, on which the
    redraw throws a [TypeError]; from height -1 up, a width below -2 makes
    the allocation of a row throw a [RangeError]. *)
Theorem initEmptyGrid_negative_dimensions (Wn Hn : Z) (st : HexGrid) :
  (Hn <= -2 -> initEmptyGrid Wn Hn st = Raise TypeError) /\
  (-1 <= Hn -> Wn <= -3 -> initEmptyGrid Wn Hn st = Raise RangeError).
Proof.
  split.
  - intros HH. unfold initEmptyGrid, resizeCanvas, draw, computePerimeter, alloc2.
    rewrite decide_True by lia. cbn [mbind outcome_bind set_grid H W].
    rewrite decide_True by lia. cbn [mbind outcome_bind].
    unfold dfs_fuel. by rewrite dfs_unfold.
  - intros HH HW. unfold initEmptyGrid, alloc2.
    rewrite decide_False by lia. by rewrite decide_True by lia.
Qed.

Lemma initEmptyGrid_negative_dimensions_witness :
  initEmptyGrid 3 (-2) blank = Raise TypeError /\
  initEmptyGrid (-3) 2 blank = Raise RangeError.
Proof.
  split.
  - apply (proj1 (initEmptyGrid_negative_dimensions 3 (-2) blank)). lia.
  - apply (proj2 (initEmptyGrid_negative_dimensions (-3) 2 blank)); lia.
Defined.

(** ** Loading *)


(** The inner loop of [loadFromInput] on row [i]. *)
Lemma row_writes (g : list (list Z)) (rows cols i : Z) (val : Z -> Z) (js : list Z) :
  shape g rows cols -> 0 <= i < rows -> (forall j, j ∈ js -> 0 <= j < cols) ->
  exists g',
    for_each (fun j g => store2 g i j (val j)) js g = Ret g' /\
    shape g' rows cols /\
    (forall j, j ∈ js -> at2 g' i j = Ret (Some (val j))) /\
    (forall y x, ~ (y = i /\ x ∈ js) -> at2 g' y x = at2 g y x).
Proof.
  intros Hsh Hi. revert g Hsh. induction js as [| j js IH]; intros g Hsh Hjs; simpl.
  - exists g. split; [done |]. split; [done |]. split; [| done].
    intros j Hj. by apply elem_of_nil in Hj.
  - destruct (shape_store2 g rows cols i j (val j) Hsh Hi) as (g1 & Hst & Hsh1 & Hnew & Hoth);
      [apply Hjs; by left |].
    destruct (IH g1 Hsh1) as (g' & Hrun & Hsh' & Hset & Hframe);
      [intros j' Hj'; apply Hjs; by right |].
    exists g'. rewrite Hst. cbn [mbind outcome_bind].
    split; [done |]. split; [done |]. split.
    + intros j' Hj'. destruct (decide (j' ∈ js)) as [Hin | Hnin]; [by apply Hset |].
      apply elem_of_cons in Hj' as [-> | ?]; [| done].
      rewrite Hframe; [done |]. by intros [_ ?].
    + intros y x Hne. rewrite Hframe.
      * apply Hoth. intros [= -> ->]. apply Hne. split; [done | by left].
      * intros [-> Hx]. apply Hne. split; [done | by right].
Qed.

(** The outer loop of [loadFromInput] over the rows [rs]. *)
Lemma rows_writes (lines : list (list Z)) (Wn : Z) (g : list (list Z))
    (rows cols : Z) (rs : list Z) :
  shape g rows cols -> Wn < cols ->
  (forall i, i ∈ rs -> 0 <= i < rows /\ i < Z.of_nat (length lines)) ->
  exists g',
    for_each (load_row lines Wn) rs g = Ret g' /\
    shape g' rows cols /\
    (forall i j, i ∈ rs -> 1 <= j <= Wn ->
       at2 g' i j = Ret (Some (loaded lines (i, j)))) /\
    (forall y x, ~ (y ∈ rs /\ 1 <= x <= Wn) -> at2 g' y x = at2 g y x).
Proof.
  intros Hsh HW. revert g Hsh.
  induction rs as [| i rs IH]; intros g Hsh His; cbn [for_each].
  - exists g. split; [done |]. split; [done |]. split; [| done].
    intros i j Hi. by apply elem_of_nil in Hi.
  - destruct (His i) as [Hi Hline]; [by left |].
    destruct (js_get_inside lines i) as [rowData Hrow]; [lia |].
    destruct (row_writes g rows cols i (fun j => or_zero (js_get rowData (j - 1)))
                (seqZ 1 Wn) Hsh Hi) as (g1 & Hrun1 & Hsh1 & Hset1 & Hframe1).
    { intros j Hj%elem_of_seqZ. lia. }
    destruct (IH g1 Hsh1) as (g' & Hrun & Hsh' & Hset & Hframe);
      [intros i' Hi'; apply His; by right |].
    assert (load_row lines Wn i g = Ret g1) as Hrow1.
    { unfold load_row. by rewrite Hrow. }
    exists g'. rewrite Hrow1. cbn [mbind outcome_bind].
    split; [done |]. split; [done |]. split.
    + intros i' j Hi' Hj.
      destruct (decide (i' ∈ rs)) as [Hin | Hnin]; [by apply Hset |].
      apply elem_of_cons in Hi' as [-> | ?]; [| done].
      rewrite Hframe by (by intros [? _]).
      rewrite Hset1 by (apply elem_of_seqZ; lia).
      unfold loaded. simpl. by rewrite Hrow.
    + intros y x Hne. rewrite Hframe.
      * apply Hframe1. intros [-> Hx%elem_of_seqZ]. apply Hne.
        split; [by left | lia].
      * intros [Hy Hx]. apply Hne. split; [by right | done].
Qed.

Lemma loadFromInput_unfold (Wn Hn : Z) (rest : list Z) (rows : list (list Z))
    (st : HexGrid) :
  rows <> [] ->
  loadFromInput ((Wn :: Hn :: rest) :: rows) st =
    (g0 ← alloc2 (Hn + 2) (Wn + 2) 0;
     g ← for_each (load_row ((Wn :: Hn :: rest) :: rows) Wn) (seqZ 1 Hn) g0;
     resizeCanvas (set_grid st Wn Hn g)).
Proof.
  intros Hne. unfold loadFromInput. rewrite decide_False; [done |].
  destruct rows; [done | simpl; lia].
Qed.

(** X17.  [loadFromInput] stores the tokens: given a header [W H] (both
    from -1 up) followed by at least [H] rows and at least one, it returns
    with dimensions [W] and [H]; the content cell [(i, j)] holds token
    [j - 1] of line [i], or 0 where the line is too short, and every
    border cell holds 0; tokens beyond the first [W] are ignored. *)
Theorem loadFromInput_stores_tokens (Wn Hn : Z) (rest : list Z)
    (rows : list (list Z)) (st : HexGrid) :
  -1 <= Wn -> -1 <= Hn -> Hn <= Z.of_nat (length rows) -> rows <> [] ->
  exists st',
    loadFromInput ((Wn :: Hn :: rest) :: rows) st = Ret st' /\
    W st' = Wn /\ H st' = Hn /\
    forall c, in_grid st' c ->
      at2 (grid st') c.1 c.2 =
        Ret (Some (if decide (content st' c)
                   then loaded ((Wn :: Hn :: rest) :: rows) c else 0)).
Proof.
  intros HW HH Hrows Hne.
  set (lines := (Wn :: Hn :: rest) :: rows).
  set (g0 := replicate (Z.to_nat (Hn + 2)) (replicate (Z.to_nat (Wn + 2)) 0)).
  destruct (rows_writes lines Wn g0 (Hn + 2) (Wn + 2) (seqZ 1 Hn))
    as (g & Hloop & Hsh & Hset & Hframe).
  { apply shape_replicate; lia. }
  { lia. }
  { intros i Hi%elem_of_seqZ. unfold lines. simpl. lia. }
  set (st1 := set_grid st Wn Hn g).
  assert (grid_ok st1) as Hok1 by done.
  destruct (draw_total st1 Hok1) as (st' & Hdraw).
  pose proof (draw_same_grid _ _ Hdraw) as (HW' & HH' & Hg').
  simpl in HW', HH', Hg'.
  exists st'. split; [| split; [done | split; [done |]]].
  - unfold lines. rewrite loadFromInput_unfold by done. rewrite alloc2_ok by lia.
    rewrite bind_Ret. fold lines g0. rewrite Hloop. by rewrite bind_Ret.
  - intros [y x] [Hy Hx]. rewrite Hg'. simpl in *. rewrite HW', HH' in *.
    case_decide as Hc.
    + destruct Hc as [Hcy Hcx]. simpl in Hcy, Hcx. rewrite HW', HH' in *.
      apply Hset; [apply elem_of_seqZ; lia | lia].
    + rewrite Hframe.
      * apply at2_zeros; lia.
      * intros [Hy'%elem_of_seqZ Hx']. apply Hc. unfold content. simpl.
        rewrite HW', HH'. lia.
Qed.

Lemma loadFromInput_stores_tokens_witness :
  exists st',
    loadFromInput [[3; 2]; [0; 1; 0; 7]; [1]] blank = Ret st' /\
    at2 (grid st') 1 2 = Ret (Some 1) /\
    at2 (grid st') 2 3 = Ret (Some 0).
Proof.
  destruct (loadFromInput_stores_tokens 3 2 [] [[0; 1; 0; 7]; [1]] blank)
    as (st' & Hrun & HW & HH & Hcells); [lia | lia | simpl; lia | discriminate |].
  exists st'. split; [exact Hrun |].
  assert (content st' (1, 2)) as Hc1 by (unfold content; rewrite HW, HH; simpl; lia).
  assert (content st' (2, 3)) as Hc2 by (unfold content; rewrite HW, HH; simpl; lia).
  split.
  - pose proof (Hcells (1, 2)) as H12. cbn [fst snd] in H12.
    rewrite H12 by (unfold in_grid; rewrite HW, HH; simpl; lia).
    rewrite decide_True by exact Hc1. reflexivity.
  - pose proof (Hcells (2, 3)) as H23. cbn [fst snd] in H23.
    rewrite H23 by (unfold in_grid; rewrite HW, HH; simpl; lia).
    rewrite decide_True by exact Hc2. reflexivity.
Defined.



(** ** Dimensions are never checked *)

Lemma for_each_skip {A S : Type} (P : S -> Prop) (body : A -> S -> outcome S)
    (vs : list A) (s : S) :
  (forall v t, v ∈ vs -> P t -> body v t = Ret t) ->
  P s -> for_each body vs s = Ret s.
Proof.
  intros Hbody Hs. induction vs as [| v vs IH]; simpl; [done |].
  rewrite Hbody; [| by left | done]. cbn [mbind outcome_bind].
  apply IH. intros v' t Hv'. apply Hbody. by right.
Qed.

(** With [W = -2] every neighbour of (0,0) fails the bounds test. *)
Lemma probe_no_column call (d : Z) (s : HexGrid * Z) :
  W s.1 = -2 -> 0 <= d < 6 -> probe call 0 0 d s = Ret s.
Proof.
  intros HW Hd. unfold probe, out_of_bounds. rewrite HW.
  dir_cases d; simpl; rewrite ?orb_true_r; done.
Qed.

(** A grid of rows without columns is traced and drawn without a read
    that could throw. *)
Lemma draw_no_column (st : HexGrid) (n : nat) :
  W st = -2 -> -1 <= H st -> grid st = replicate n [] -> (0 < n)%nat ->
  exists st', draw st = Ret st'.
Proof.
  intros HW HH Hg Hn.
  assert (exists st', computePerimeter st = Ret (st', 0)) as (st' & Hrun).
  { unfold computePerimeter. rewrite alloc2_ok by lia. rewrite bind_Ret.
    unfold dfs_fuel. rewrite dfs_unfold. cbn [fst snd]. simpl grid. rewrite Hg.
    assert (forall (A : Type) (k : nat), (0 < k)%nat ->
              at2 (replicate k ([] : list A)) 0 0 = Ret None) as Hread.
    { intros A k Hk. unfold at2. rewrite js_get_lookup by lia.
      by rewrite lookup_replicate_2 by lia. }
    rewrite Hread by done. cbn [mbind outcome_bind is_one].
    simpl isVisited. rewrite HW. change (Z.to_nat (-2 + 2)) with 0%nat.
    change (replicate 0 false) with (@nil bool).
    rewrite Hread by lia. cbn [mbind outcome_bind truthy].
    assert (store2 (replicate (Z.to_nat (H st + 2)) ([] : list bool)) 0 0 true
            = Ret (<[0%nat := [true]]> (replicate (Z.to_nat (H st + 2)) []))) as ->.
    { unfold store2. rewrite js_get_lookup by lia.
      rewrite lookup_replicate_2 by lia.
      change (js_set [] 0 true) with (Some [true]). cbv iota beta.
      by rewrite js_set_inside by (rewrite length_replicate; lia). }
    cbn [mbind outcome_bind]. eexists.
    apply (for_each_skip (fun t : HexGrid * Z => W t.1 = -2)); [| done].
    intros d t Hd%elem_of_seqZ Ht. apply probe_no_column; [done | lia]. }
  exists st'. unfold draw. rewrite Hrun. cbn [mbind outcome_bind fst].
  apply computePerimeter_same_grid in Hrun as (HW' & _ & _).
  assert (draw_hexagons st' = Ret tt) as ->; [| done].
  unfold draw_hexagons. rewrite HW', HW.
  apply (for_each_skip (fun _ : unit => True)); done.
Qed.

(** C10 as the code has it.  Neither [initEmptyGrid] nor [loadFromInput]
    checks the dimensions; the allocation and the redraw decide.  With
    width and height from -1 up, zero and -1 included, nothing is
    rejected: [initEmptyGrid] allocates the (height+2) x (width+2)
    all-empty grid and returns, and [loadFromInput], given a header
    followed by at least [height] rows (and at least one), returns with
    the grid sized (height+2) x (width+2) and its border ring empty.  With
    width -2 and height from -1 up [initEmptyGrid] returns with height+2
    rows without columns.  Below that the call fails on the way, not by a
    check: a height below -1 leaves a grid without rows on which the
    redraw throws a [TypeError], and from height -1 up a width below -2
    makes the allocation of a row throw a [RangeError]. *)
Theorem dimensions_never_validated (Wn Hn : Z) (st : HexGrid) :
  (-1 <= Wn -> -1 <= Hn ->
   exists st',
     initEmptyGrid Wn Hn st = Ret st' /\ W st' = Wn /\ H st' = Hn /\
     grid st' = replicate (Z.to_nat (Hn + 2)) (replicate (Z.to_nat (Wn + 2)) 0)) /\
  (-1 <= Wn -> -1 <= Hn ->
   forall rest rows,
     Hn <= Z.of_nat (length rows) -> rows <> [] ->
     exists st',
       loadFromInput ((Wn :: Hn :: rest) :: rows) st = Ret st' /\
       W st' = Wn /\ H st' = Hn /\
       shape (grid st') (Hn + 2) (Wn + 2) /\ border_empty st') /\
  (Wn = -2 -> -1 <= Hn ->
   exists st',
     initEmptyGrid Wn Hn st = Ret st' /\ W st' = Wn /\ H st' = Hn /\
     grid st' = replicate (Z.to_nat (Hn + 2)) []) /\
  (Hn <= -2 ->
   initEmptyGrid Wn Hn st = Raise TypeError /\
   forall rest rows, rows <> [] ->
     loadFromInput ((Wn :: Hn :: rest) :: rows) st = Raise TypeError) /\
  (-1 <= Hn -> Wn <= -3 ->
   initEmptyGrid Wn Hn st = Raise RangeError /\
   forall rest rows, rows <> [] ->
     loadFromInput ((Wn :: Hn :: rest) :: rows) st = Raise RangeError).
Proof.
  split; [| split; [| split; [| split]]].
  - intros HW HH.
    destruct (initEmptyGrid_total Wn Hn st HW HH) as (st' & Hrun & HW' & HH' & Hg & _).
    by exists st'.
  - intros HW HH rest rows Hrows Hne.
    destruct (loadFromInput_total Wn Hn rest rows st HW HH Hrows Hne)
      as (st' & Hrun & HW' & HH' & (_ & _ & Hsh) & Hb).
    exists st'. rewrite HW', HH' in Hsh. done.
  - intros -> HH. unfold initEmptyGrid, resizeCanvas.
    rewrite alloc2_ok by lia. rewrite bind_Ret.
    change (Z.to_nat (-2 + 2)) with 0%nat. simpl replicate at 2.
    set (st1 := set_grid st (-2) Hn (replicate (Z.to_nat (Hn + 2)) [])).
    destruct (draw_no_column st1 (Z.to_nat (Hn + 2))) as (st' & Hdraw);
      [done | done | done | lia |].
    pose proof (draw_same_grid _ _ Hdraw) as (HW' & HH' & Hg').
    by exists st'.
  - intros HH.
    assert (forall g, draw (set_grid st Wn Hn g) = Raise TypeError \/ g <> []) as Hdraw.
    { intros g. destruct g as [| r g]; [left | by right].
      unfold draw, computePerimeter, alloc2.
      cbn [set_grid H W]. rewrite decide_True by lia. cbn [mbind outcome_bind].
      unfold dfs_fuel. by rewrite dfs_unfold. }
    split.
    + unfold initEmptyGrid, resizeCanvas, alloc2.
      rewrite decide_True by lia. cbn [mbind outcome_bind].
      by destruct (Hdraw []).
    + intros rest rows Hne. rewrite loadFromInput_unfold by done.
      unfold alloc2. rewrite decide_True by lia. cbn [mbind outcome_bind].
      rewrite seqZ_nil by lia. cbn [for_each mbind outcome_bind].
      unfold resizeCanvas. by destruct (Hdraw []).
  - intros HH HW. split.
    + unfold initEmptyGrid, alloc2.
      rewrite decide_False by lia. by rewrite decide_True by lia.
    + intros rest rows Hne. rewrite loadFromInput_unfold by done.
      unfold alloc2. rewrite decide_False by lia. by rewrite decide_True by lia.
Qed.

Lemma dimensions_never_validated_witness :
  (exists st',
     initEmptyGrid (-1) (-1) blank = Ret st' /\ W st' = -1 /\ H st' = -1 /\
     grid st' = [[0]]) /\
  initEmptyGrid (-1) (-2) blank = Raise TypeError.
Proof.
  destruct (dimensions_never_validated (-1) (-1) blank) as (Hinit & _).
  destruct (dimensions_never_validated (-1) (-2) blank) as (_ & _ & _ & Hrows & _).
  split.
  - apply Hinit; lia.
  - apply Hrows. lia.
Defined.

(** C10 as stated fails: non-positive dimensions are not rejected.
    [initEmptyGrid(0, 0)] returns with a 2 x 2 grid that has no content
    cell and [initEmptyGrid(-1, -1)] with a single cell; so does
    [loadFromInput] on the headers [0 0] and [-1 -1]. *)
Lemma nonpositive_dimensions_not_rejected :
  (~ rejected (initEmptyGrid 0 0 blank) /\
   initEmptyGrid 0 0 blank =
     Ret (mkHexGrid 0 0 [[0; 0]; [0; 0]] [[true; true]; [true; true]] [])) /\
  (~ rejected (initEmptyGrid (-1) (-1) blank) /\
   initEmptyGrid (-1) (-1) blank = Ret (mkHexGrid (-1) (-1) [[0]] [[true]] [])) /\
  (~ rejected (loadFromInput [[0; 0]; [1]] blank) /\
   loadFromInput [[0; 0]; [1]] blank =
     Ret (mkHexGrid 0 0 [[0; 0]; [0; 0]] [[true; true]; [true; true]] [])) /\
  (~ rejected (loadFromInput [[-1; -1]; [1]] blank) /\
   loadFromInput [[-1; -1]; [1]] blank = Ret (mkHexGrid (-1) (-1) [[0]] [[true]] [])).
Proof.
  assert (forall (r : outcome HexGrid) st, r = Ret st -> ~ rejected r /\ r = Ret st)
    as Hret.
  { intros r st ->. split; [| done]. intros [e He]. discriminate He. }
  split; [| split; [| split]]; apply Hret; vm_compute; reflexivity.
Qed.
